(** * FBOSS hardware-object engine: SaiApi, Trident2Asic, SaiManagerTable

    A shallow embedding of
      - fboss/agent/hw/switch_asics/Trident2Asic.h
      - fboss/agent/hw/sai/api/SaiApi.h
      - fboss/agent/hw/sai/switch/SaiManagerTable.cpp
    together with the properties of these files that the design document
    states. *)

From Stdlib Require Import ZArith List String Lia.
From stdpp Require Import base decidable countable list gmap sets strings.

Set Warnings "-register-all".

Local Open Scope string_scope.
Local Open Scope list_scope.
Local Open Scope Z_scope.

(* ===================================================================== *)
(** * Capability profiles: [Trident2Asic.h]                               *)
(* ===================================================================== *)

Module Cfg.

(** [cfg::StreamType] is a scoped enumeration.  A variable of that type can
    hold, besides the three enumerators, any other value of the underlying
    integer type; [Unlisted raw] stands for such a value, one that equals
    none of the enumerators. *)
Inductive StreamType : Type :=
| UNICAST
| MULTICAST
| ALL
| Unlisted (raw : Z).

#[global] Instance StreamType_eq_dec : EqDecision StreamType.
Proof. solve_decision. Defined.

Definition StreamType_code (s : StreamType) : nat + Z :=
  match s with
  | UNICAST => inl 0%nat
  | MULTICAST => inl 1%nat
  | ALL => inl 2%nat
  | Unlisted z => inr z
  end.

Definition StreamType_of_code (c : nat + Z) : StreamType :=
  match c with
  | inl 0%nat => UNICAST
  | inl 1%nat => MULTICAST
  | inl _ => ALL
  | inr z => Unlisted z
  end.

#[global] Instance StreamType_countable : Countable StreamType.
Proof.
  apply (inj_countable' StreamType_code StreamType_of_code).
  intros []; reflexivity.
Defined.

(** [cfg::PortSpeed]; the numeric values are the ones
    [ThriftTest.assertPortSpeeds] pins down. *)
Inductive PortSpeed : Type :=
| GIGE | XG | TWENTYG | TWENTYFIVEG | FORTYG | FIFTYG | HUNDREDG.

Definition PortSpeed_value (s : PortSpeed) : Z :=
  match s with
  | GIGE => 1000
  | XG => 10000
  | TWENTYG => 20000
  | TWENTYFIVEG => 25000
  | FORTYG => 40000
  | FIFTYG => 50000
  | HUNDREDG => 100000
  end.

Inductive PortLoopbackMode : Type := NONE | MAC | PHY.

End Cfg.

Module HwAsic.
Import Cfg.

(** [FbossError(args...)]: the arguments are kept as they are passed; the
    design document calls this error ConfigurationError. *)
Inductive FbossError : Type :=
| FbossError_msg (what : string)
| FbossError_msg_streamType (what : string) (streamType : StreamType).

(** A call either returns or throws. *)
Inductive result (A : Type) : Type :=
| Returns (a : A)
| Throws (e : FbossError).
Arguments Returns {A} a.
Arguments Throws {A} e.

Inductive AsicType : Type := ASIC_TYPE_TRIDENT2.

(** The queries of the [HwAsic] interface that [Trident2Asic.h] overrides
    inline ([isSupported] is only declared there). *)
Class HwAsic : Type := {
  getAsicType : AsicType;
  getMaxPortSpeed : PortSpeed;
  getQueueStreamTypes : bool -> gset StreamType;
  getDefaultNumPortQueues : StreamType -> result Z;
  getMaxLabelStackDepth : Z;
  getMMUSizeBytes : Z;
  desiredLoopbackMode : PortLoopbackMode
}.

Module Trident2.

Definition getQueueStreamTypes (cpu : bool) : gset StreamType :=
  if cpu then {[ MULTICAST ]} else {[ UNICAST ]}.

(** The [switch] has cases for the three enumerators only; any other value
    leaves the [switch] and reaches the final [throw]. *)
Definition getDefaultNumPortQueues (streamType : StreamType) : result Z :=
  match streamType with
  | UNICAST
  | MULTICAST => Returns 0
  | ALL => Throws (FbossError_msg "no queue exist for this stream type")
  | Unlisted _ =>
      Throws (FbossError_msg_streamType "Unknown streamType" streamType)
  end.

End Trident2.

#[global] Instance Trident2Asic : HwAsic := {|
  getAsicType := ASIC_TYPE_TRIDENT2;
  getMaxPortSpeed := FORTYG;
  getQueueStreamTypes := Trident2.getQueueStreamTypes;
  getDefaultNumPortQueues := Trident2.getDefaultNumPortQueues;
  getMaxLabelStackDepth := 2;
  getMMUSizeBytes := 16 * 1024 * 1024;
  desiredLoopbackMode := PHY
|}.



Definition is_throw {A} (r : result A) : bool :=
  match r with Throws _ => true | Returns _ => false end.

(** The reading of "an unsupported stream-type/queue combination raises an
    error" on the queries of a profile: whenever a port kind does not list a
    stream type, asking the profile about that stream type throws. *)
Definition unsupported_combination_throws (asic : HwAsic) : Prop :=
  forall (cpu : bool) (streamType : StreamType),
    streamType ∉ (@getQueueStreamTypes asic cpu) ->
    exists e, @getDefaultNumPortQueues asic streamType = Throws e.

End HwAsic.


(* ===================================================================== *)
(** * The generic engine: [SaiApi.h]                                      *)
(* ===================================================================== *)

Module Sai.

(** ** Vendor types ([sai.h]) *)

(** The status codes of the vendor header: the engine tells success and
    buffer overflow apart from each other and from all the other codes;
    [SAI_STATUS_OTHER code] stands for a code that is neither. *)
Inductive sai_status_t : Type :=
| SAI_STATUS_SUCCESS
| SAI_STATUS_BUFFER_OVERFLOW
| SAI_STATUS_OTHER (code : Z).

#[global] Instance sai_status_eq_dec : EqDecision sai_status_t.
Proof. solve_decision. Defined.

Definition sai_object_id_t := Z.
Definition sai_attr_id_t := Z.
Definition sai_stat_id_t := Z.
Definition uint64_t := Z.

(** [sai_api_t] and [sai_stats_mode_t] are enumerations of the vendor
    header; the engine only passes their values on. *)
Definition sai_api_t := Z.
Definition sai_stats_mode_t := Z.

(** ** Attributes

    Modelled from the spec: [SaiAttribute.h] is not part of the sources.  An
    attribute is a numeric id with a value; a list value keeps the logical
    length [count] (the field of the vendor record that the hardware fills
    in) apart from the buffer [value_], whose length is the allocated
    capacity.  Every value is kept as a list here. *)
Record SaiAttribute : Type := mkSaiAttribute {
  attr_id : sai_attr_id_t;
  count : nat;
  value_ : list Z
}.

Definition ValueType := list Z.

(** Modelled from the spec: [realloc] grows (resizes) the buffer to the
    size the hardware reported in [count]. *)
Definition realloc (a : SaiAttribute) : SaiAttribute :=
  {| attr_id := attr_id a; count := count a;
     value_ := resize (count a) 0 (value_ a) |}.

(** Modelled from the spec: [value] is an owned copy of the semantic
    content, [count] elements long. *)
Definition value (a : SaiAttribute) : ValueType :=
  resize (count a) 0 (value_ a).

(** Modelled from the spec: a default-constructed attribute [AttrT{}] of
    the kind [AttrT] has the id of its kind and an empty value. *)
Definition default_attr (AttrT : sai_attr_id_t) : SaiAttribute :=
  {| attr_id := AttrT; count := 0; value_ := [] |}.

(** ** Adapter keys: a vendor-generated handle or a caller-supplied entry *)

Definition EntryStruct := list Z.

Inductive AdapterKey : Type :=
| KeyObjectId (oid : sai_object_id_t)
| KeyEntry (entry : EntryStruct).

(** ** The primitive calls of a per-category adapter ([impl()]) *)

Inductive VendorCall : Type :=
| _create (switch_id : sai_object_id_t)
          (attr_count : nat) (attr_list : list SaiAttribute)
| _create_entry (entry : EntryStruct)
          (attr_count : nat) (attr_list : list SaiAttribute)
| _remove (key : AdapterKey)
| _getAttribute (key : AdapterKey) (attr : SaiAttribute)
| _setAttribute (key : AdapterKey) (attr : SaiAttribute)
| _getStats (key : AdapterKey) (number_of_counters : nat)
          (counter_ids : list sai_stat_id_t) (mode : sai_stats_mode_t).

(** What a primitive call hands back: its status, and what it wrote through
    the pointers it was given: the new object id ([_create]), the [count]
    field of the attribute ([_getAttribute]), and the slots it stored into
    the caller's buffer (list elements for [_getAttribute], counters for
    [_getStats]). *)
Record VendorReply : Type := mkVendorReply {
  status : sai_status_t;
  out_oid : sai_object_id_t;
  out_count : nat;
  out_stores : list (nat * Z)
}.

(** Stores through a pointer into a buffer of fixed length: a vendor cannot
    change the length of the caller's vector. *)
Definition stores (ws : list (nat * Z)) (buf : list Z) : list Z :=
  foldl (fun b w => <[ w.1 := w.2 ]> b) buf ws.

(** The attribute after the vendor wrote into it. *)
Definition written (r : VendorReply) (a : SaiAttribute) : SaiAttribute :=
  {| attr_id := attr_id a; count := out_count r;
     value_ := stores (out_stores r) (value_ a) |}.

(** ** Errors and log lines *)

(** [SaiApiError]; the design document calls it HardwareCallError. *)
Record SaiApiError : Type := mkSaiApiError {
  err_status : sai_status_t;
  err_apiType : sai_api_t;
  err_msg : string
}.

(** One [XLOG(DBG5)] line: the text, the api type and the object. *)
Record LogLine : Type := mkLogLine {
  log_text : string;
  log_apiType : sai_api_t;
  log_object : AdapterKey
}.

(** ** Programs

    An engine operation is a finite tree of the steps it takes: taking and
    releasing the process-wide [SaiApiLock], a primitive vendor call (whose
    continuation receives the reply), [attr.realloc()], a log line, and in
    the end a return or a throw. *)
Inductive prog (A : Type) : Type :=
| Ret (a : A)
| Throw (e : SaiApiError)
| Lock (k : prog A)
| Unlock (k : prog A)
| Call (c : VendorCall) (k : VendorReply -> prog A)
| Realloc (k : prog A)
| Xlog (l : LogLine) (k : prog A).
Arguments Ret {A} a.
Arguments Throw {A} e.
Arguments Lock {A} k.
Arguments Unlock {A} k.
Arguments Call {A} c k.
Arguments Realloc {A} k.
Arguments Xlog {A} l k.

Fixpoint bind {A B} (p : prog A) (f : A -> prog B) : prog B :=
  match p with
  | Ret a => f a
  | Throw e => Throw e
  | Lock k => Lock (bind k f)
  | Unlock k => Unlock (bind k f)
  | Call c k => Call c (fun r => bind (k r) f)
  | Realloc k => Realloc (bind k f)
  | Xlog l k => Xlog l (bind k f)
  end.

Notation "x <- p ;; q" := (bind p (fun x => q))
  (at level 100, p at next level, right associativity).
Notation "p ;; q" := (bind p (fun _ => q))
  (at level 100, right associativity).

(** The destructor of [std::lock_guard] runs when the scope is left, by a
    return or by an exception. *)
Fixpoint unlock_on_exit {A} (p : prog A) : prog A :=
  match p with
  | Ret a => Unlock (Ret a)
  | Throw e => Unlock (Throw e)
  | Lock k => Lock (unlock_on_exit k)
  | Unlock k => Unlock (unlock_on_exit k)
  | Call c k => Call c (fun r => unlock_on_exit (k r))
  | Realloc k => Realloc (unlock_on_exit k)
  | Xlog l k => Xlog l (unlock_on_exit k)
  end.

(** [std::lock_guard<std::mutex> g{SaiApiLock::getInstance()->lock};]
    followed by the rest of the scope. *)
Definition lock_guard {A} (scope : prog A) : prog A :=
  Lock (unlock_on_exit scope).

Definition call (c : VendorCall) : prog VendorReply := Call c Ret.

(** Modelled from the spec: [saiApiCheckError] ([SaiApiError.h] is not part
    of the sources) throws for every status other than success; the error
    carries the status, the api type and the description. *)
Definition saiApiCheckError
    (st : sai_status_t) (apiType : sai_api_t) (msg : string) : prog unit :=
  if decide (st = SAI_STATUS_SUCCESS) then Ret tt
  else Throw (mkSaiApiError st apiType msg).

(** ** Traits *)

(** [ApiT::ApiType]. *)
Class SaiApiT : Type := { ApiType : sai_api_t }.

(** What the engine uses of [SaiObjectTraits]; [saiAttrs] marshals the
    create attributes into vendor records and comes with the traits. *)
Class SaiObjectTraits : Type := {
  CreateAttributes : Type;
  saiAttrs : CreateAttributes -> list SaiAttribute;
  CounterIds : list sai_stat_id_t;
  CounterMode : sai_stats_mode_t
}.

(** ** The operations of [SaiApi<ApiT>] *)

Section SaiApi.
Context {ApiT : SaiApiT}.

(** [create], object-id case. *)
Definition create `{T : SaiObjectTraits}
    (createAttributes : CreateAttributes) (switch_id : sai_object_id_t)
  : prog sai_object_id_t :=
  let saiAttributeTs := saiAttrs createAttributes in
  lock_guard (
    r <- call (_create switch_id (length saiAttributeTs) saiAttributeTs) ;;
    saiApiCheckError (status r) ApiType "Failed to create sai entity" ;;
    Ret (out_oid r)).

(** [create], entry-struct case. *)
Definition create_entry `{T : SaiObjectTraits}
    (entry : EntryStruct) (createAttributes : CreateAttributes)
  : prog unit :=
  let saiAttributeTs := saiAttrs createAttributes in
  lock_guard (
    r <- call (_create_entry entry (length saiAttributeTs) saiAttributeTs) ;;
    saiApiCheckError (status r) ApiType "Failed to create sai entity" ;;
    Xlog (mkLogLine "created sai object" ApiType (KeyEntry entry)) (Ret tt)).

Definition remove (key : AdapterKey) : prog unit :=
  lock_guard (
    r <- call (_remove key) ;;
    saiApiCheckError (status r) ApiType "Failed to remove sai object" ;;
    Xlog (mkLogLine "removed sai object" ApiType key) (Ret tt)).

(** [getAttribute], the base case: a real attribute. *)
Definition getAttribute (key : AdapterKey) (attr : SaiAttribute)
  : prog ValueType :=
  lock_guard (
    r <- call (_getAttribute key attr) ;;
    let attr := written r attr in
    if decide (status r = SAI_STATUS_BUFFER_OVERFLOW) then
      Realloc (
        let attr := realloc attr in
        r <- call (_getAttribute key attr) ;;
        let attr := written r attr in
        saiApiCheckError (status r) ApiType "Failed to get sai attribute" ;;
        Ret (value attr))
    else
      saiApiCheckError (status r) ApiType "Failed to get sai attribute" ;;
      Ret (value attr)).

(** Modelled from the spec: [tupleMap] ([TupleUtils.h] is not part of the
    sources) applies the function to the elements one after the other, in
    order, and collects the results in the same order. *)
Fixpoint tupleMap {A B} (f : A -> prog B) (t : list A) : prog (list B) :=
  match t with
  | [] => Ret []
  | a :: t' => b <- f a ;; bs <- tupleMap f t' ;; Ret (b :: bs)
  end.

(** [getAttribute], [std::optional] of an attribute of kind [AttrT]. *)
Definition getAttribute_optional
    (AttrT : sai_attr_id_t) (key : AdapterKey)
    (attrOptional : option SaiAttribute) : prog (option ValueType) :=
  let attr := default (default_attr AttrT) attrOptional in
  v <- getAttribute key attr ;;
  let res := Some v in
  Ret res.

(** The shapes [getAttribute] is overloaded on, and the shapes of what it
    returns. *)
Inductive Attrs : Type :=
| AnAttribute (attr : SaiAttribute)
| ATuple (attrTuple : list Attrs)
| AnOptional (AttrT : sai_attr_id_t) (attrOptional : option SaiAttribute).

Inductive Values : Type :=
| AValue (v : ValueType)
| ValueTuple (vs : list Values)
| OptionalValue (v : option ValueType).

(** [getAttribute] over all its overloads; in the tuple overload [recurse]
    calls [getAttribute] on each element, whatever its shape. *)
Fixpoint getAttribute_any (key : AdapterKey) (a : Attrs) : prog Values :=
  match a with
  | AnAttribute attr => v <- getAttribute key attr ;; Ret (AValue v)
  | ATuple attrTuple =>
      vs <- tupleMap (getAttribute_any key) attrTuple ;; Ret (ValueTuple vs)
  | AnOptional AttrT attrOptional =>
      v <- getAttribute_optional AttrT key attrOptional ;;
      Ret (OptionalValue v)
  end.

(** [getAttribute], [std::tuple] of attributes. *)
Definition getAttribute_tuple (key : AdapterKey) (attrTuple : list SaiAttribute)
  : prog (list ValueType) :=
  let recurse := fun attr => getAttribute key attr in
  tupleMap recurse attrTuple.

Definition setAttribute (key : AdapterKey) (attr : SaiAttribute) : prog unit :=
  lock_guard (
    r <- call (_setAttribute key attr) ;;
    saiApiCheckError (status r) ApiType "Failed to set attribute").

Definition getStatsImpl `{T : SaiObjectTraits}
    (key : AdapterKey) (counterIds : list sai_stat_id_t) (numCounters : nat)
  : prog (list uint64_t) :=
  let counters := resize numCounters 0 [] in
  r <- call (_getStats key (length counters) counterIds CounterMode) ;;
  let counters := stores (out_stores r) counters in
  saiApiCheckError (status r) ApiType "Failed to get stats" ;;
  Ret counters.

(** [getStats] with an explicit list of counter ids. *)
Definition getStats `{T : SaiObjectTraits}
    (key : AdapterKey) (counterIds : list sai_stat_id_t)
  : prog (list uint64_t) :=
  lock_guard (getStatsImpl key counterIds (length counterIds)).

(** [getStats] with the counter ids of the traits. *)
Definition getStats_default `{T : SaiObjectTraits} (key : AdapterKey)
  : prog (list uint64_t) :=
  lock_guard (getStatsImpl key CounterIds (length CounterIds)).

End SaiApi.

(** ** Running an operation against an adapter

    What one thread observes.  The adapter answers every primitive call
    from the state of the hardware, which it may change. *)

Inductive Event : Type :=
| EvLock
| EvUnlock
| EvCallBegin (c : VendorCall)
| EvCallReturn (r : VendorReply)
| EvRealloc
| EvLog (l : LogLine).

Inductive outcome (A : Type) : Type :=
| Returned (a : A)
| Thrown (e : SaiApiError).
Arguments Returned {A} a.
Arguments Thrown {A} e.

Definition Impl (Hw : Type) : Type := VendorCall -> Hw -> VendorReply * Hw.

Fixpoint run {Hw A} (impl : Impl Hw) (p : prog A) (hw : Hw)
  : outcome A * Hw * list Event :=
  match p with
  | Ret a => (Returned a, hw, [])
  | Throw e => (Thrown e, hw, [])
  | Lock k => let '(o, hw', t) := run impl k hw in (o, hw', EvLock :: t)
  | Unlock k => let '(o, hw', t) := run impl k hw in (o, hw', EvUnlock :: t)
  | Call c k =>
      let '(r, hw1) := impl c hw in
      let '(o, hw', t) := run impl (k r) hw1 in
      (o, hw', EvCallBegin c :: EvCallReturn r :: t)
  | Realloc k => let '(o, hw', t) := run impl k hw in (o, hw', EvRealloc :: t)
  | Xlog l k => let '(o, hw', t) := run impl k hw in (o, hw', EvLog l :: t)
  end.

(** What [saiApiCheckError] followed by [return a] comes to. *)
Definition checked {A} (st : sai_status_t) (apiType : sai_api_t) (msg : string)
    (a : A) : outcome A :=
  if decide (st = SAI_STATUS_SUCCESS) then Returned a
  else Thrown (mkSaiApiError st apiType msg).

Definition outcome_map {A B} (f : A -> B) (o : outcome A) : outcome B :=
  match o with
  | Returned a => Returned (f a)
  | Thrown e => Thrown e
  end.

Definition is_call_begin (e : Event) : bool :=
  match e with EvCallBegin _ => true | _ => false end.
Definition is_realloc (e : Event) : bool :=
  match e with EvRealloc => true | _ => false end.
Definition is_log (e : Event) : bool :=
  match e with EvLog _ => true | _ => false end.
Definition is_vendor (e : Event) : bool :=
  match e with EvCallBegin _ | EvCallReturn _ => true | _ => false end.

(** Number of primitive vendor calls, of buffer growths and of log lines in
    a trace. *)
Definition vendor_calls (t : list Event) : nat := length (filter is_call_begin t).
Definition reallocs (t : list Event) : nat := length (filter is_realloc t).
Definition log_lines (t : list Event) : nat := length (filter is_log t).

(** The reading of "getAttribute over an ordered aggregate": the scalar
    [getAttribute] on each element, one after the other, each from the state
    of the hardware that the reads before it left; the first read that throws
    ends it. *)
Fixpoint scalar_reads {Hw} `{ApiT : SaiApiT} (impl : Impl Hw) (key : AdapterKey)
    (attrs : list SaiAttribute) (hw : Hw)
  : outcome (list ValueType) * Hw * list Event :=
  match attrs with
  | [] => (Returned [], hw, [])
  | a :: rest =>
      match run impl (getAttribute key a) hw with
      | (Thrown e, hw1, t1) => (Thrown e, hw1, t1)
      | (Returned v, hw1, t1) =>
          match scalar_reads impl key rest hw1 with
          | (Thrown e, hw2, t2) => (Thrown e, hw2, t1 ++ t2)
          | (Returned vs, hw2, t2) => (Returned (v :: vs), hw2, t1 ++ t2)
          end
      end
  end.

(** The state of the hardware when the read of element [i] begins. *)
Definition hw_before {Hw} `{ApiT : SaiApiT} (impl : Impl Hw) (key : AdapterKey)
    (attrs : list SaiAttribute) (hw : Hw) (i : nat) : Hw :=
  (scalar_reads impl key (take i attrs) hw).1.2.

(** ** Threads

    Modelled from the spec: [SaiApiLock.h] is not part of the sources;
    [SaiApiLock::getInstance()->lock] is the one process-wide mutex.  A
    thread is running a program or waiting inside a vendor call.  The
    threads of the process interleave step by step; only [Lock] depends on
    the mutex (it waits until the mutex is free).  A vendor call can begin
    at any time and returns any reply: nothing but the engine keeps calls
    apart. *)
Inductive tstate (A : Type) : Type :=
| Running (p : prog A)
| InCall (c : VendorCall) (k : VendorReply -> prog A).
Arguments Running {A} p.
Arguments InCall {A} c k.

Inductive tstep {A} : tstate A -> Event -> tstate A -> Prop :=
| tstep_lock k : tstep (Running (Lock k)) EvLock (Running k)
| tstep_unlock k : tstep (Running (Unlock k)) EvUnlock (Running k)
| tstep_begin c k : tstep (Running (Call c k)) (EvCallBegin c) (InCall c k)
| tstep_return c k r : tstep (InCall c k) (EvCallReturn r) (Running (k r))
| tstep_realloc k : tstep (Running (Realloc k)) EvRealloc (Running k)
| tstep_log l k : tstep (Running (Xlog l k)) (EvLog l) (Running k).

Record system (A : Type) : Type := mkSystem {
  owner : option nat;
  threads : list (tstate A)
}.
Arguments mkSystem {A} owner threads.
Arguments owner {A} s.
Arguments threads {A} s.

(** The mutex after thread [i] takes a step with event [e], or [None] when
    the step has to wait. *)
Definition mutex_after (o : option nat) (i : nat) (e : Event)
  : option (option nat) :=
  match e with
  | EvLock => match o with None => Some (Some i) | Some _ => None end
  | EvUnlock => Some None
  | _ => Some o
  end.

Inductive step {A} : system A -> nat * Event -> system A -> Prop :=
| step_thread s i e ts ts' o' :
    threads s !! i = Some ts ->
    tstep ts e ts' ->
    mutex_after (owner s) i e = Some o' ->
    step s (i, e) (mkSystem o' (<[ i := ts' ]> (threads s))).

Inductive exec {A} : system A -> list (nat * Event) -> system A -> Prop :=
| exec_done s : exec s [] s
| exec_more s l s' tr s'' : step s l s' -> exec s' tr s'' -> exec s (l :: tr) s''.

(** All threads at the start of their programs, the mutex free. *)
Definition boot {A} (progs : list (prog A)) : system A :=
  mkSystem None (Running <$> progs).

Definition in_call {A} (ts : tstate A) : bool :=
  match ts with InCall _ _ => true | Running _ => false end.

(** A program keeps its vendor calls inside the lock: started with the
    mutex held or not ([held]), it calls the vendor only while it holds the
    mutex, takes the mutex only when it does not hold it, releases it only
    when it holds it, and ends without it. *)
Fixpoint bracketed {A} (held : bool) (p : prog A) : Prop :=
  match p with
  | Ret _ | Throw _ => held = false
  | Lock k => held = false /\ bracketed true k
  | Unlock k => held = true /\ bracketed false k
  | Call _ k => held = true /\ forall r, bracketed true (k r)
  | Realloc k | Xlog _ k => bracketed held k
  end.

(** A trace is serial when, replayed against the mutex, every [Lock] finds
    the mutex free, and every [Unlock] and every begin and return of a vendor
    call is a step of the thread that holds the mutex. *)
Fixpoint serial (o : option nat) (tr : list (nat * Event)) : bool :=
  match tr with
  | [] => true
  | (i, e) :: tr' =>
      match e with
      | EvLock => bool_decide (o = None) && serial (Some i) tr'
      | EvUnlock => bool_decide (o = Some i) && serial None tr'
      | EvCallBegin _ | EvCallReturn _ => bool_decide (o = Some i) && serial o tr'
      | EvRealloc | EvLog _ => serial o tr'
      end
  end.

(** The events of thread [i] in a trace. *)
Fixpoint events_of (i : nat) (tr : list (nat * Event)) : list Event :=
  match tr with
  | [] => []
  | (j, e) :: tr' =>
      if bool_decide (j = i) then e :: events_of i tr' else events_of i tr'
  end.

(** [try { p } catch (SaiApiError& e) { h e }] in a caller. *)
Fixpoint catch {A} (p : prog A) (h : SaiApiError -> prog A) : prog A :=
  match p with
  | Ret a => Ret a
  | Throw e => h e
  | Lock k => Lock (catch k h)
  | Unlock k => Unlock (catch k h)
  | Call c k => Call c (fun r => catch (k r) h)
  | Realloc k => Realloc (catch k h)
  | Xlog l k => Xlog l (catch k h)
  end.

(** What a thread of a manager runs: engine operations of any category
    ([ApiT]) and any object traits, one after the other, each continuing with
    what the one before returned, or with a handler when it threw. *)
Inductive engine_prog : forall {A : Type}, prog A -> Prop :=
| engine_ret {A} (a : A) : engine_prog (Ret a)
| engine_throw {A} (e : SaiApiError) : engine_prog (@Throw A e)
| engine_bind {A B} (p : prog A) (f : A -> prog B) :
    engine_prog p -> (forall a, engine_prog (f a)) -> engine_prog (bind p f)
| engine_catch {A} (p : prog A) (h : SaiApiError -> prog A) :
    engine_prog p -> (forall e, engine_prog (h e)) -> engine_prog (catch p h)
| engine_create (ApiT : SaiApiT) (T : SaiObjectTraits) createAttributes switch_id :
    engine_prog (@create ApiT T createAttributes switch_id)
| engine_create_entry (ApiT : SaiApiT) (T : SaiObjectTraits) entry createAttributes :
    engine_prog (@create_entry ApiT T entry createAttributes)
| engine_remove (ApiT : SaiApiT) key : engine_prog (@remove ApiT key)
| engine_getAttribute (ApiT : SaiApiT) key attr :
    engine_prog (@getAttribute ApiT key attr)
| engine_setAttribute (ApiT : SaiApiT) key attr :
    engine_prog (@setAttribute ApiT key attr)
| engine_getStats (ApiT : SaiApiT) (T : SaiObjectTraits) key counterIds :
    engine_prog (@getStats ApiT T key counterIds)
| engine_getStats_default (ApiT : SaiApiT) (T : SaiObjectTraits) key :
    engine_prog (@getStats_default ApiT T key).

(** A thread that holds the mutex or not ([held]) is where a bracketed
    program can be. *)
Definition tstate_ok {A} (held : bool) (ts : tstate A) : Prop :=
  match ts with
  | Running p => bracketed held p
  | InCall _ k => held = true /\ forall r, bracketed true (k r)
  end.

Definition sys_ok {A} (s : system A) : Prop :=
  forall i ts, threads s !! i = Some ts ->
    tstate_ok (bool_decide (owner s = Some i)) ts.

(** Several steps of one thread. *)
Inductive tsteps {A} : tstate A -> list Event -> tstate A -> Prop :=
| tsteps_done ts : tsteps ts [] ts
| tsteps_more ts e ts' l ts'' :
    tstep ts e ts' -> tsteps ts' l ts'' -> tsteps ts (e :: l) ts''.

(** A program that is over once it has released the mutex. *)
Fixpoint ends_at_unlock {A} (p : prog A) : Prop :=
  match p with
  | Ret _ | Throw _ => True
  | Lock k => ends_at_unlock k
  | Unlock k => match k with Ret _ | Throw _ => True | _ => False end
  | Call _ k => forall r, ends_at_unlock (k r)
  | Realloc k | Xlog _ k => ends_at_unlock k
  end.

Definition tstate_ends_at_unlock {A} (ts : tstate A) : Prop :=
  match ts with
  | Running p => ends_at_unlock p
  | InCall _ k => forall r, ends_at_unlock (k r)
  end.

Fixpoint nothing_after_unlock (l : list Event) : bool :=
  match l with
  | [] => true
  | EvUnlock :: l' => match l' with [] => true | _ => false end
  | _ :: l' => nothing_after_unlock l'
  end.

(** Between two vendor events of thread [i] (the begin or the return of a
    call) no other thread has a vendor event. *)
Definition uninterrupted (i : nat) (tr : list (nat * Event)) : Prop :=
  forall tr1 e1 mid e2 tr2,
    tr = tr1 ++ (i, e1) :: mid ++ (i, e2) :: tr2 ->
    is_vendor e1 = true -> is_vendor e2 = true ->
    forall j e, (j, e) ∈ mid -> is_vendor e = true -> j = i.

(** Every thread that is inside a vendor call holds the mutex. *)
Definition callers_hold_mutex {A} (s : system A) : Prop :=
  forall i, match threads s !! i with
            | Some (InCall _ _) => owner s = Some i
            | _ => True
            end.

(** At most one thread is inside a vendor call. *)
Definition one_call_in_flight {A} (s : system A) : Prop :=
  forall i j, in_call <$> (threads s !! i) = Some true ->
              in_call <$> (threads s !! j) = Some true -> i = j.

(** ** Further measures of traces and shapes *)

Definition is_lock (e : Event) : bool :=
  match e with EvLock => true | _ => false end.
Definition is_unlock (e : Event) : bool :=
  match e with EvUnlock => true | _ => false end.

(** How often a trace takes and releases the mutex. *)
Definition locks (t : list Event) : nat := length (filter is_lock t).
Definition unlocks (t : list Event) : nat := length (filter is_unlock t).

(** The real attributes in a composite: one per attribute and per optional,
    the sum over the elements for a tuple. *)
Fixpoint leaves (a : Attrs) : nat :=
  match a with
  | AnAttribute _ => 1
  | ATuple attrTuple =>
      (fix sum (l : list Attrs) : nat :=
         match l with
         | [] => 0
         | a' :: l' => leaves a' + sum l'
         end) attrTuple
  | AnOptional _ _ => 1
  end%nat.

Definition leaves_of (l : list Attrs) : nat :=
  (fix sum (l : list Attrs) : nat :=
     match l with
     | [] => 0
     | a' :: l' => leaves a' + sum l'
     end)%nat l.

(** A result has the shape of what was asked for: a value for an attribute,
    an engaged optional for an optional, and for a tuple a tuple of as many
    results, each of the shape of its element. *)
Fixpoint same_shape (a : Attrs) (v : Values) : bool :=
  match a, v with
  | AnAttribute _, AValue _ => true
  | ATuple attrTuple, ValueTuple vs =>
      (fix all2 (l : list Attrs) (vs : list Values) : bool :=
         match l, vs with
         | [], [] => true
         | a' :: l', v' :: vs' => same_shape a' v' && all2 l' vs'
         | _, _ => false
         end) attrTuple vs
  | AnOptional _ _, OptionalValue (Some _) => true
  | _, _ => false
  end.

Definition same_shapes (l : list Attrs) (vs : list Values) : bool :=
  (fix all2 (l : list Attrs) (vs : list Values) : bool :=
     match l, vs with
     | [], [] => true
     | a' :: l', v' :: vs' => same_shape a' v' && all2 l' vs'
     | _, _ => false
     end) l vs.

(** A thread that has returned or thrown. *)
Definition terminated {A} (ts : tstate A) : bool :=
  match ts with
  | Running (Ret _) | Running (Throw _) => true
  | _ => false
  end.

(** A reply with which a vendor call can return. *)
Definition ok_reply : VendorReply := mkVendorReply SAI_STATUS_SUCCESS 0 0 [].

(** The mutex is held by a thread of the system, if by any. *)
Definition owner_exists {A} (s : system A) : Prop :=
  forall i, owner s = Some i -> is_Some (threads s !! i).

End Sai.

(* ===================================================================== *)
(** * The manager registry: [SaiManagerTable.cpp]                         *)
(* ===================================================================== *)

Module ManagerTable.

(** Addresses of objects that the registry does not own: the api table and
    the registry itself ([this]). *)
Definition ptr := Z.

(** Modelled from the spec: the classes [SaiBridgeManager] and
    [SaiPortManager] are not part of the sources; a manager is constructed
    with a pointer to the shared api table and a back-reference to the
    registry, and keeps both. *)
Inductive Manager : Type :=
| SaiBridgeManager (apiTable : ptr) (managerTable : ptr)
| SaiPortManager (apiTable : ptr) (managerTable : ptr).

(** The managers constructed so far, in the order of their construction; a
    manager is referred to by its position. *)
Definition Heap := list Manager.

(** [std::make_unique<M>(args...)]: construct, and own the new object. *)
Definition make_unique (m : Manager) (h : Heap) : nat * Heap :=
  (length h, h ++ [m]).

(** A [std::unique_ptr] is [None] while it is null. *)
Record SaiManagerTable : Type := mkSaiManagerTable {
  apiTable_ : ptr;
  bridgeManager_ : option nat;
  portManager_ : option nat
}.

(** The constructor of the registry at address [this]. *)
Definition SaiManagerTable_ctor (this : ptr) (apiTable : ptr) (h : Heap)
  : SaiManagerTable * Heap :=
  let t := mkSaiManagerTable apiTable None None in
  let '(b, h) := make_unique (SaiBridgeManager (apiTable_ t) this) h in
  let t := mkSaiManagerTable (apiTable_ t) (Some b) (portManager_ t) in
  let '(p, h) := make_unique (SaiPortManager (apiTable_ t) this) h in
  let t := mkSaiManagerTable (apiTable_ t) (bridgeManager_ t) (Some p) in
  (t, h).

(** The accessors return [*bridgeManager_] and [*portManager_]: the manager
    the pointer refers to ([None] stands for dereferencing a null pointer).
    The const overloads have the same body. *)
Definition bridgeManager (t : SaiManagerTable) : option nat := bridgeManager_ t.
Definition bridgeManager_const (t : SaiManagerTable) : option nat := bridgeManager_ t.
Definition portManager (t : SaiManagerTable) : option nat := portManager_ t.
Definition portManager_const (t : SaiManagerTable) : option nat := portManager_ t.

(** What can be called on a registry between its construction and its
    destruction, and what a call returns; no accessor assigns a member. *)
Inductive Accessor : Type :=
| call_bridgeManager
| call_bridgeManager_const
| call_portManager
| call_portManager_const.

Definition access (a : Accessor) (t : SaiManagerTable)
  : option nat * SaiManagerTable :=
  match a with
  | call_bridgeManager => (bridgeManager t, t)
  | call_bridgeManager_const => (bridgeManager_const t, t)
  | call_portManager => (portManager t, t)
  | call_portManager_const => (portManager_const t, t)
  end.

Fixpoint lifetime (calls : list Accessor) (t : SaiManagerTable)
  : list (option nat) * SaiManagerTable :=
  match calls with
  | [] => ([], t)
  | a :: calls' =>
      let '(r, t) := access a t in
      let '(rs, t) := lifetime calls' t in
      (r :: rs, t)
  end.

Definition is_bridge_accessor (a : Accessor) : bool :=
  match a with
  | call_bridgeManager | call_bridgeManager_const => true
  | _ => false
  end.

End ManagerTable.

(* ===================================================================== *)
(** * A fake adapter                                                      *)
(* ===================================================================== *)

Module Fake.
Import Sai.

(** Two categories and the traits of an object with three counters. *)
Definition PortApi : SaiApiT := {| ApiType := 2 |}.
Definition BridgeApi : SaiApiT := {| ApiType := 1 |}.

Definition PortTraits : SaiObjectTraits := {|
  CreateAttributes := list SaiAttribute;
  saiAttrs := fun attrs => attrs;
  CounterIds := [0; 1; 2];
  CounterMode := 0
|}.

(** The list the hardware holds for every attribute: ten elements. *)
Definition hw_list : list Z := [10; 11; 12; 13; 14; 15; 16; 17; 18; 19].

Definition indexed (l : list Z) : list (nat * Z) := imap (fun i x => (i, x)) l.

(** The state of the fake hardware is the number of calls it has served.
    A get on a buffer that is too small reports overflow and the required
    count; every other call succeeds. *)
Definition impl : Impl nat := fun c served =>
  (match c with
   | _create _ _ _ => mkVendorReply SAI_STATUS_SUCCESS 4096 0 []
   | _getAttribute _ attr =>
       if (count attr <? length hw_list)%nat
       then mkVendorReply SAI_STATUS_BUFFER_OVERFLOW 0 (length hw_list) []
       else mkVendorReply SAI_STATUS_SUCCESS 0 (length hw_list) (indexed hw_list)
   | _getStats _ n ids _ =>
       mkVendorReply SAI_STATUS_SUCCESS 0 0 (indexed ((fun i => 100 + i) <$> ids))
   | _ => mkVendorReply SAI_STATUS_SUCCESS 0 0 []
   end, S served).

(** A list attribute whose buffer has room for four elements. *)
Definition small_attr : SaiAttribute :=
  {| attr_id := 7; count := 4; value_ := [0; 0; 0; 0] |}.

(** Two threads of two categories: one reads [small_attr] of port 1, the
    other removes bridge 2. *)
Definition pool : list (prog ValueType) :=
  [ (v <- @getAttribute PortApi (KeyObjectId 1) small_attr ;; Ret v);
    (@remove BridgeApi (KeyObjectId 2) ;; Ret []) ].

Definition overflow_reply : VendorReply :=
  mkVendorReply SAI_STATUS_BUFFER_OVERFLOW 0 10 [].
Definition success_reply : VendorReply :=
  mkVendorReply SAI_STATUS_SUCCESS 0 10 (indexed hw_list).
Definition removed_reply : VendorReply :=
  mkVendorReply SAI_STATUS_SUCCESS 0 0 [].

(** A run of the two threads in which the hardware answers as [impl]
    does: the read overflows once and is retried, then the remove runs. *)
Definition schedule : list (nat * Event) :=
  [ (0%nat, EvLock);
    (0%nat, EvCallBegin (_getAttribute (KeyObjectId 1) small_attr));
    (0%nat, EvCallReturn overflow_reply);
    (0%nat, EvRealloc);
    (0%nat, EvCallBegin (_getAttribute (KeyObjectId 1)
                           (realloc (written overflow_reply small_attr))));
    (0%nat, EvCallReturn success_reply);
    (0%nat, EvUnlock);
    (1%nat, EvLock);
    (1%nat, EvCallBegin (_remove (KeyObjectId 2)));
    (1%nat, EvCallReturn removed_reply);
    (1%nat, EvLog (mkLogLine "removed sai object" (@ApiType BridgeApi)
                     (KeyObjectId 2)));
    (1%nat, EvUnlock) ].

Definition final : system ValueType :=
  mkSystem None [Running (Ret hw_list); Running (Ret [])].

(** An adapter that refuses attribute 8 and otherwise answers as [impl]. *)
Definition refusing_impl : Impl nat := fun c served =>
  match c with
  | _getAttribute _ attr =>
      if decide (attr_id attr = 8)
      then (mkVendorReply (SAI_STATUS_OTHER 7) 0 (count attr) [], S served)
      else impl c served
  | _ => impl c served
  end.

Definition refused_attr : SaiAttribute :=
  {| attr_id := 8; count := 4; value_ := [0; 0; 0; 0] |}.

(** An adapter that fills in only the first counter of a [_getStats]. *)
Definition first_counter_impl : Impl nat := fun c served =>
  match c with
  | _getStats _ _ _ _ => (mkVendorReply SAI_STATUS_SUCCESS 0 0 [(0%nat, 77)], S served)
  | _ => impl c served
  end.

(** One thread that reads a composite: a tuple holding [small_attr]. *)
Definition composite_reads : list (SaiApiT * AdapterKey * Attrs) :=
  [ (PortApi, KeyObjectId 1, ATuple [AnAttribute small_attr]) ].

Definition composite_schedule : list (nat * Event) := take 7 schedule.

Definition composite_final : system Values :=
  mkSystem None [Running (Ret (ValueTuple [AValue hw_list]))].

(** A tuple whose second element the adapter refuses, and the error that
    the read of it throws. *)
Definition refused_tuple : list SaiAttribute :=
  [small_attr; refused_attr; small_attr].

Definition refusal : SaiApiError :=
  mkSaiApiError (SAI_STATUS_OTHER 7) (@ApiType PortApi)
    "Failed to get sai attribute".

End Fake.

(* ===================================================================== *)
(** * Properties of the capability profile                                *)
(* ===================================================================== *)

Module HwAsicSpec.
Import Cfg HwAsic.

Example trident2_constants :
  PortSpeed_value (@getMaxPortSpeed Trident2Asic) = 40000
  /\ @getMMUSizeBytes Trident2Asic = 16777216
  /\ @getMaxLabelStackDepth Trident2Asic = 2.
Proof. repeat split. Qed.



(** C9. On Trident2, [getDefaultNumPortQueues] returns 0 for UNICAST and
    for MULTICAST; it throws "no queue exist for this stream type" for ALL
    and "Unknown streamType" (with the value) for every value that is not an
    enumerator.  So it throws exactly when the stream type is neither
    UNICAST nor MULTICAST, and returns 0 otherwise. *)
Theorem trident2_default_num_port_queues (streamType : StreamType) :
  @getDefaultNumPortQueues Trident2Asic UNICAST = Returns 0
  /\ @getDefaultNumPortQueues Trident2Asic MULTICAST = Returns 0
  /\ @getDefaultNumPortQueues Trident2Asic ALL
     = Throws (FbossError_msg "no queue exist for this stream type")
  /\ (forall raw,
        @getDefaultNumPortQueues Trident2Asic (Unlisted raw)
        = Throws (FbossError_msg_streamType "Unknown streamType" (Unlisted raw)))
  /\ (is_throw (@getDefaultNumPortQueues Trident2Asic streamType) = true
      <-> streamType <> UNICAST /\ streamType <> MULTICAST)
  /\ (is_throw (@getDefaultNumPortQueues Trident2Asic streamType) = false
      <-> @getDefaultNumPortQueues Trident2Asic streamType = Returns 0).
Proof.
  repeat split; try reflexivity;
    destruct streamType; simpl in *; try congruence; try discriminate;
    try (intros [? ?]; congruence).
Qed.

(** C7 fails as stated: UNICAST is not among the stream types of the CPU
    port, yet the profile returns 0 for it instead of throwing. *)
Lemma trident2_unsupported_combination_returns :
  @getQueueStreamTypes Trident2Asic true = {[ MULTICAST ]}
  /\ (UNICAST ∉ @getQueueStreamTypes Trident2Asic true)
  /\ @getDefaultNumPortQueues Trident2Asic UNICAST = Returns 0
  /\ ~ unsupported_combination_throws Trident2Asic.
Proof.
  assert (Hnot : UNICAST ∉ (@getQueueStreamTypes Trident2Asic true)).
  { simpl. unfold Trident2.getQueueStreamTypes. set_solver. }
  repeat split; try done.
  intros H. destruct (H true UNICAST Hnot) as [e He]. discriminate.
Qed.

(** C7, amended.  On Trident2 the queue stream types are exactly
    {MULTICAST} for the CPU port and exactly {UNICAST} for front-panel ports,
    so they differ.  The stream-type query of the profile takes no port kind:
    for the stream type that a port kind does not list (UNICAST on the CPU
    port, MULTICAST on front-panel ports) it returns 0 and does not throw. *)
Theorem trident2_queue_stream_types :
  @getQueueStreamTypes Trident2Asic true = {[ MULTICAST ]}
  /\ @getQueueStreamTypes Trident2Asic false = {[ UNICAST ]}
  /\ @getQueueStreamTypes Trident2Asic true <> @getQueueStreamTypes Trident2Asic false
  /\ (UNICAST ∉ @getQueueStreamTypes Trident2Asic true)
  /\ (MULTICAST ∉ @getQueueStreamTypes Trident2Asic false)
  /\ @getDefaultNumPortQueues Trident2Asic UNICAST = Returns 0
  /\ @getDefaultNumPortQueues Trident2Asic MULTICAST = Returns 0.
Proof.
  simpl. unfold Trident2.getQueueStreamTypes.
  repeat split; try done; set_solver.
Qed.

End HwAsicSpec.

(* ===================================================================== *)
(** * Properties of the engine, one thread                                *)
(* ===================================================================== *)

Module SaiSpec.
Import Sai.

Section Sequential.
Context {Hw : Type} (impl : Impl Hw).

Lemma run_bind {A B} (p : prog A) (f : A -> prog B) (hw : Hw) :
  run impl (bind p f) hw =
  match run impl p hw with
  | (Returned a, hw1, t1) =>
      let '(o, hw2, t2) := run impl (f a) hw1 in (o, hw2, t1 ++ t2)
  | (Thrown e, hw1, t1) => (Thrown e, hw1, t1)
  end.
Proof.
  revert hw. induction p as [a|e|k IH|k IH|c k IH|k IH|l k IH]; intros hw; simpl.
  - destruct (run impl (f a) hw) as [[o hw2] t2]. reflexivity.
  - reflexivity.
  - rewrite IH. destruct (run impl k hw) as [[[a|e] hw1] t1]; simpl; try reflexivity.
    destruct (run impl (f a) hw1) as [[o hw2] t2]. reflexivity.
  - rewrite IH. destruct (run impl k hw) as [[[a|e] hw1] t1]; simpl; try reflexivity.
    destruct (run impl (f a) hw1) as [[o hw2] t2]. reflexivity.
  - destruct (impl c hw) as [r hw0]. rewrite IH.
    destruct (run impl (k r) hw0) as [[[a|e] hw1] t1]; simpl; try reflexivity.
    destruct (run impl (f a) hw1) as [[o hw2] t2]. reflexivity.
  - rewrite IH. destruct (run impl k hw) as [[[a|e] hw1] t1]; simpl; try reflexivity.
    destruct (run impl (f a) hw1) as [[o hw2] t2]. reflexivity.
  - rewrite IH. destruct (run impl k hw) as [[[a|e] hw1] t1]; simpl; try reflexivity.
    destruct (run impl (f a) hw1) as [[o hw2] t2]. reflexivity.
Qed.

Lemma run_unlock_on_exit {A} (p : prog A) (hw : Hw) :
  run impl (unlock_on_exit p) hw =
  let '(o, hw', t) := run impl p hw in (o, hw', t ++ [EvUnlock]).
Proof.
  revert hw. induction p as [a|e|k IH|k IH|c k IH|k IH|l k IH]; intros hw; simpl;
    try reflexivity;
    try (rewrite IH; destruct (run impl k hw) as [[o hw1] t1]; reflexivity).
  destruct (impl c hw) as [r hw0]. rewrite IH.
  destruct (run impl (k r) hw0) as [[o hw1] t1]. reflexivity.
Qed.

Lemma run_lock_guard {A} (p : prog A) (hw : Hw) :
  run impl (lock_guard p) hw =
  let '(o, hw', t) := run impl p hw in (o, hw', EvLock :: t ++ [EvUnlock]).
Proof.
  unfold lock_guard. simpl. rewrite run_unlock_on_exit.
  destruct (run impl p hw) as [[o hw1] t1]. reflexivity.
Qed.

Lemma run_check_ret {A} `{ApiT : SaiApiT} (st : sai_status_t) (msg : string)
    (a : A) (hw : Hw) :
  run impl (saiApiCheckError st ApiType msg ;; Ret a) hw
  = (checked st ApiType msg a, hw, []).
Proof.
  unfold saiApiCheckError, checked. destruct (decide (st = SAI_STATUS_SUCCESS));
    reflexivity.
Qed.

Lemma length_stores (ws : list (nat * Z)) (buf : list Z) :
  length (stores ws buf) = length buf.
Proof.
  unfold stores. revert buf. induction ws as [|w ws IH]; intros buf; simpl.
  - reflexivity.
  - rewrite IH. apply length_insert.
Qed.

Lemma length_value (a : SaiAttribute) : length (value a) = count a.
Proof. unfold value. apply length_resize. Qed.

Lemma length_realloc (a : SaiAttribute) : length (value_ (realloc a)) = count a.
Proof. unfold realloc. simpl. apply length_resize. Qed.

(** C1. The scalar [getAttribute] issues the vendor get once; when that
    first call reports buffer overflow it grows the buffer once (to the
    count the hardware reported) and issues the get once more, and it never
    issues a third.  Whatever the last issued call reports decides the
    outcome: success returns the value, whose length is the count the
    hardware reported in that call; any other status, overflow on the second
    attempt included, throws [SaiApiError]. *)
Theorem getAttribute_retries_once `{ApiT : SaiApiT}
    (key : AdapterKey) (attr : SaiAttribute) (hw : Hw) :
  let c1 := _getAttribute key attr in
  let r1 := (impl c1 hw).1 in
  let hw1 := (impl c1 hw).2 in
  let attr1 := realloc (written r1 attr) in
  let c2 := _getAttribute key attr1 in
  let r2 := (impl c2 hw1).1 in
  let hw2 := (impl c2 hw1).2 in
  let msg := "Failed to get sai attribute" in
  let res := run impl (getAttribute key attr) hw in
  let overflow := bool_decide (status r1 = SAI_STATUS_BUFFER_OVERFLOW) in
  let last := if overflow then r2 else r1 in
  res = (if overflow
         then (checked (status r2) ApiType msg (value (written r2 attr1)), hw2,
               [EvLock; EvCallBegin c1; EvCallReturn r1; EvRealloc;
                EvCallBegin c2; EvCallReturn r2; EvUnlock])
         else (checked (status r1) ApiType msg (value (written r1 attr)), hw1,
               [EvLock; EvCallBegin c1; EvCallReturn r1; EvUnlock]))
  /\ vendor_calls res.2 = (if overflow then 2 else 1)%nat
  /\ reallocs res.2 = (if overflow then 1 else 0)%nat
  /\ length (value_ attr1) = out_count r1
  /\ match res.1.1 with
     | Returned v => status last = SAI_STATUS_SUCCESS /\ length v = out_count last
     | Thrown e => status last <> SAI_STATUS_SUCCESS
                   /\ e = mkSaiApiError (status last) ApiType msg
     end
  /\ (forall v : ValueType,
        checked SAI_STATUS_BUFFER_OVERFLOW ApiType msg v
        = Thrown (mkSaiApiError SAI_STATUS_BUFFER_OVERFLOW ApiType msg)).
Proof.
  intros c1 r1 hw1 attr1 c2 r2 hw2 msg res overflow last.
  assert (Hres : res = (if overflow
         then (checked (status r2) ApiType msg (value (written r2 attr1)), hw2,
               [EvLock; EvCallBegin c1; EvCallReturn r1; EvRealloc;
                EvCallBegin c2; EvCallReturn r2; EvUnlock])
         else (checked (status r1) ApiType msg (value (written r1 attr)), hw1,
               [EvLock; EvCallBegin c1; EvCallReturn r1; EvUnlock]))).
  { subst res. unfold getAttribute. rewrite run_lock_guard. simpl.
    subst overflow last r1 hw1. fold c1.
    destruct (impl c1 hw) as [r hw0] eqn:E1. simpl in *.
    destruct (decide (status r = SAI_STATUS_BUFFER_OVERFLOW)) as [Hov|Hov].
    - rewrite (bool_decide_eq_true_2 _ Hov). simpl.
      subst r2 hw2 c2 attr1.
      destruct (impl _ hw0) as [r' hw0'] eqn:E2. simpl.
      rewrite run_check_ret. reflexivity.
    - rewrite (bool_decide_eq_false_2 _ Hov). simpl.
      rewrite run_check_ret. reflexivity. }
  split; [exact Hres|].
  rewrite Hres. subst last.
  repeat split.
  - destruct overflow; reflexivity.
  - destruct overflow; reflexivity.
  - subst attr1. apply length_realloc.
  - destruct overflow; simpl; unfold checked;
      match goal with |- context [decide ?P] => destruct (decide P) end;
      simpl; repeat split; try assumption; rewrite length_value; reflexivity.
Qed.

(** The example of the design document: the hardware holds ten elements,
    the buffer of the caller has room for four. *)
Example getAttribute_ten_into_four :
  run Fake.impl (@getAttribute Fake.PortApi (KeyObjectId 1) Fake.small_attr) 0%nat
  = (Returned Fake.hw_list, 2%nat,
     [EvLock;
      EvCallBegin (_getAttribute (KeyObjectId 1) Fake.small_attr);
      EvCallReturn (mkVendorReply SAI_STATUS_BUFFER_OVERFLOW 0 10 []);
      EvRealloc;
      EvCallBegin (_getAttribute (KeyObjectId 1)
                     (mkSaiAttribute 7 10 [0; 0; 0; 0; 0; 0; 0; 0; 0; 0]));
      EvCallReturn (mkVendorReply SAI_STATUS_SUCCESS 0 10
                      (Fake.indexed Fake.hw_list));
      EvUnlock])
  /\ length Fake.hw_list = 10%nat.
Proof. split; reflexivity. Qed.

(** C2. [getStats] returns, when the vendor reports success, a vector
    with one counter per counter id used: as many as the explicit list has
    (also none), whatever the traits declare as defaults, and as many as
    [CounterIds] when no list is passed.  Any other status throws. *)
Theorem getStats_length `{ApiT : SaiApiT} `{T : SaiObjectTraits}
    (key : AdapterKey) (counterIds : list sai_stat_id_t) (hw : Hw) :
  let msg := "Failed to get stats" in
  let K := length counterIds in
  let c := _getStats key K counterIds CounterMode in
  let r := (impl c hw).1 in
  let res := run impl (getStats key counterIds) hw in
  let cd := _getStats key (length CounterIds) CounterIds CounterMode in
  let rd := (impl cd hw).1 in
  let resd := run impl (getStats_default key) hw in
  res = (checked (status r) ApiType msg (stores (out_stores r) (replicate K 0)),
         (impl c hw).2, [EvLock; EvCallBegin c; EvCallReturn r; EvUnlock])
  /\ match res.1.1 with
     | Returned v => status r = SAI_STATUS_SUCCESS /\ length v = K
     | Thrown e => status r <> SAI_STATUS_SUCCESS
                   /\ e = mkSaiApiError (status r) ApiType msg
     end
  /\ resd = (checked (status rd) ApiType msg
              (stores (out_stores rd) (replicate (length CounterIds) 0)),
            (impl cd hw).2, [EvLock; EvCallBegin cd; EvCallReturn rd; EvUnlock])
  /\ match resd.1.1 with
     | Returned v => status rd = SAI_STATUS_SUCCESS /\ length v = length CounterIds
     | Thrown e => status rd <> SAI_STATUS_SUCCESS
                   /\ e = mkSaiApiError (status rd) ApiType msg
     end
  /\ (forall T' : SaiObjectTraits,
        match (run impl (@getStats ApiT T' key counterIds) hw).1.1 with
        | Returned v => length v = K
        | Thrown _ => True
        end).
Proof.
  assert (Himpl : forall (T0 : SaiObjectTraits) ids,
    let c := _getStats key (length ids) ids (@CounterMode T0) in
    run impl (lock_guard (@getStatsImpl ApiT T0 key ids (length ids))) hw
    = (checked (status (impl c hw).1) ApiType "Failed to get stats"
         (stores (out_stores (impl c hw).1) (replicate (length ids) 0)),
       (impl c hw).2,
       [EvLock; EvCallBegin c; EvCallReturn (impl c hw).1; EvUnlock])).
  { intros T0 ids c. rewrite run_lock_guard. unfold getStatsImpl. simpl.
    rewrite length_resize. fold c. destruct (impl c hw) as [r hw1]. simpl.
    rewrite run_check_ret. rewrite resize_nil. reflexivity. }
  assert (Hlen : forall st (ws : list (nat * Z)) n,
    match checked st ApiType "Failed to get stats" (stores ws (replicate n 0)) with
    | Returned v => st = SAI_STATUS_SUCCESS /\ length v = n
    | Thrown e => st <> SAI_STATUS_SUCCESS
                  /\ e = mkSaiApiError st ApiType "Failed to get stats"
    end).
  { intros st ws n. unfold checked.
    destruct (decide (st = SAI_STATUS_SUCCESS)); split; try done.
    rewrite length_stores. apply length_replicate. }
  intros msg K c r res cd rd resd.
  assert (Hres := Himpl T counterIds).
  assert (Hresd := Himpl T CounterIds).
  unfold getStats in res. unfold getStats_default in resd.
  cbv zeta in Hres, Hresd. fold res in Hres. fold resd in Hresd.
  repeat split.
  - exact Hres.
  - rewrite Hres. simpl. apply Hlen.
  - exact Hresd.
  - rewrite Hresd. simpl. apply Hlen.
  - intros T'. unfold getStats. rewrite (Himpl T' counterIds). simpl.
    clear Hres Hresd.
    pose proof (Hlen (status (impl (_getStats key (length counterIds) counterIds
                                      (@CounterMode T')) hw).1)
                  (out_stores (impl (_getStats key (length counterIds) counterIds
                                      (@CounterMode T')) hw).1)
                  (length counterIds)) as H.
    destruct (checked _ _ _ _); [apply H | exact I].
Qed.

Lemma run_tupleMap_getAttribute `{ApiT : SaiApiT}
    (key : AdapterKey) (attrs : list SaiAttribute) (hw : Hw) :
  run impl (tupleMap (getAttribute key) attrs) hw = scalar_reads impl key attrs hw.
Proof.
  revert hw. induction attrs as [|a rest IH]; intros hw.
  - reflexivity.
  - cbn [tupleMap scalar_reads]. rewrite run_bind.
    destruct (run impl (getAttribute key a) hw) as [[[v|e] hw1] t1]; [|reflexivity].
    rewrite run_bind, IH.
    destruct (scalar_reads impl key rest hw1) as [[[vs|e] hw2] t2]; simpl.
    + rewrite app_nil_r. reflexivity.
    + reflexivity.
Qed.

Lemma scalar_reads_cons `{ApiT : SaiApiT}
    (key : AdapterKey) (a : SaiAttribute) (rest : list SaiAttribute) (hw : Hw) :
  scalar_reads impl key (a :: rest) hw =
  match run impl (getAttribute key a) hw with
  | (Thrown e, hw1, t1) => (Thrown e, hw1, t1)
  | (Returned v, hw1, t1) =>
      match scalar_reads impl key rest hw1 with
      | (Thrown e, hw2, t2) => (Thrown e, hw2, t1 ++ t2)
      | (Returned vs, hw2, t2) => (Returned (v :: vs), hw2, t1 ++ t2)
      end
  end.
Proof. reflexivity. Qed.

Lemma scalar_reads_length `{ApiT : SaiApiT}
    (key : AdapterKey) (attrs : list SaiAttribute) (hw : Hw) (vs : list ValueType) :
  (scalar_reads impl key attrs hw).1.1 = Returned vs -> length vs = length attrs.
Proof.
  revert hw vs. induction attrs as [|a rest IH]; intros hw vs.
  - intros [= <-]. reflexivity.
  - rewrite scalar_reads_cons.
    destruct (run impl (getAttribute key a) hw) as [[[v|e] hw1] t1];
      [|intros [=]].
    specialize (IH hw1).
    destruct (scalar_reads impl key rest hw1) as [[[vs'|e] hw2] t2];
      [|intros [=]].
    intros [= <-]. cbn [length]. f_equal. apply IH. reflexivity.
Qed.

Lemma scalar_reads_lookup `{ApiT : SaiApiT}
    (key : AdapterKey) (attrs : list SaiAttribute) (hw : Hw) (vs : list ValueType)
    (i : nat) :
  (scalar_reads impl key attrs hw).1.1 = Returned vs ->
  match attrs !! i with
  | Some a =>
      exists v, vs !! i = Some v
        /\ (run impl (getAttribute key a) (hw_before impl key attrs hw i)).1.1
           = Returned v
  | None => vs !! i = None
  end.
Proof.
  revert hw vs i. induction attrs as [|a rest IH]; intros hw vs i.
  - intros [= <-]. reflexivity.
  - rewrite scalar_reads_cons.
    destruct (run impl (getAttribute key a) hw) as [[[v|e] hw1] t1] eqn:Ea;
      [|intros [=]].
    specialize (IH hw1).
    destruct (scalar_reads impl key rest hw1) as [[[vs'|e] hw2] t2] eqn:Er;
      [|intros [=]].
    intros [= <-]. destruct i as [|i].
    + exists v. split; [reflexivity|]. unfold hw_before. cbn [take scalar_reads].
      cbn [lookup list_lookup fst snd]. rewrite Ea. reflexivity.
    + specialize (IH vs' i eq_refl).
      replace (hw_before impl key (a :: rest) hw (S i))
        with (hw_before impl key rest hw1 i); [exact IH|].
      unfold hw_before. cbn [take]. rewrite scalar_reads_cons, Ea.
      destruct (scalar_reads impl key (take i rest) hw1) as [[[?|?] ?] ?];
        reflexivity.
Qed.

Lemma getAttribute_tuple_unfold `{ApiT : SaiApiT}
    (key : AdapterKey) (attrTuple : list SaiAttribute) :
  getAttribute_tuple key attrTuple = tupleMap (getAttribute key) attrTuple.
Proof. reflexivity. Qed.

(** C4. [getAttribute] on a tuple of attributes reads the elements in
    order, each with the scalar [getAttribute]; what it returns has as many
    slots as the tuple, and slot [i] holds what the scalar [getAttribute]
    returns for element [i] (from the state of the hardware that the reads
    before it left).  If one read throws, the whole call throws.  This holds
    for every length, so for every N >= 1. *)
Theorem getAttribute_tuple_elementwise `{ApiT : SaiApiT}
    (key : AdapterKey) (attrTuple : list SaiAttribute) (hw : Hw) :
  let res := run impl (getAttribute_tuple key attrTuple) hw in
  res = scalar_reads impl key attrTuple hw
  /\ match res.1.1 with
     | Returned vs =>
         length vs = length attrTuple
         /\ forall i : nat,
              match attrTuple !! i with
              | Some a =>
                  exists v, vs !! i = Some v
                    /\ (run impl (getAttribute key a)
                          (hw_before impl key attrTuple hw i)).1.1 = Returned v
              | None => vs !! i = None
              end
     | Thrown e => True
     end
  /\ run impl (getAttribute_any key (ATuple (AnAttribute <$> attrTuple))) hw
     = (outcome_map (fun vs => ValueTuple (AValue <$> vs)) res.1.1, res.1.2, res.2).
Proof.
  intros res.
  assert (Hres : res = scalar_reads impl key attrTuple hw).
  { subst res. rewrite getAttribute_tuple_unfold.
    apply run_tupleMap_getAttribute. }
  split; [exact Hres|]. split.
  - destruct (res.1.1) as [vs|e] eqn:E; [|exact I]. rewrite Hres in E. split.
    + eapply scalar_reads_length; eassumption.
    + intros i. apply scalar_reads_lookup. exact E.
  - subst res. rewrite getAttribute_tuple_unfold. clear Hres.
    cbn [getAttribute_any]. rewrite run_bind.
    assert (Hmap : forall l hw0,
      run impl (tupleMap (getAttribute_any key) (AnAttribute <$> l)) hw0
      = let r := run impl (tupleMap (getAttribute key) l) hw0 in
        (outcome_map (fmap AValue) r.1.1, r.1.2, r.2)).
    { induction l as [|a rest IH]; intros hw0; [reflexivity|].
      cbn [fmap list_fmap tupleMap getAttribute_any]. rewrite !run_bind.
      destruct (run impl (getAttribute key a) hw0) as [[[v|e] hw1] t1];
        [|reflexivity].
      cbn [run]. rewrite !run_bind. rewrite (IH hw1). simpl.
      destruct (run impl (tupleMap (getAttribute key) rest) hw1)
        as [[[vs|e] hw2] t2]; simpl; rewrite ?app_nil_r; reflexivity. }
    rewrite Hmap. simpl.
    destruct (run impl (tupleMap (getAttribute key) attrTuple) hw)
      as [[[vs|e] hw2] t2]; simpl; rewrite ?app_nil_r; reflexivity.
Qed.

(** C5. [getAttribute] on an optional attribute reads the attribute it
    holds or, when it is empty, a default-constructed attribute of the same
    kind, with the scalar [getAttribute], and wraps what that returns: the
    result is always an engaged optional, never an empty one (a failing read
    throws, as the scalar one does). *)
Theorem getAttribute_optional_engaged `{ApiT : SaiApiT}
    (AttrT : sai_attr_id_t) (key : AdapterKey)
    (attrOptional : option SaiAttribute) (hw : Hw) :
  let attr := default (default_attr AttrT) attrOptional in
  let read := run impl (getAttribute key attr) hw in
  let res := run impl (getAttribute_optional AttrT key attrOptional) hw in
  res = (outcome_map Some read.1.1, read.1.2, read.2)
  /\ res.1.1 <> Returned None
  /\ match res.1.1 with
     | Returned o => exists v, o = Some v /\ read.1.1 = Returned v
     | Thrown e => read.1.1 = Thrown e
     end
  /\ run impl (getAttribute_optional AttrT key None) hw
     = (let d := run impl (getAttribute key (default_attr AttrT)) hw in
        (outcome_map Some d.1.1, d.1.2, d.2)).
Proof.
  assert (H : forall o,
    run impl (getAttribute_optional AttrT key o) hw
    = (let d := run impl (getAttribute key (default (default_attr AttrT) o)) hw in
       (outcome_map Some d.1.1, d.1.2, d.2))).
  { intros o. unfold getAttribute_optional. rewrite run_bind.
    destruct (run impl (getAttribute key _) hw) as [[[v|e] hw1] t1]; simpl;
      rewrite ?app_nil_r; reflexivity. }
  intros attr read res. subst res. rewrite H. fold attr. fold read. simpl.
  repeat split.
  - destruct (read.1.1); discriminate.
  - destruct (read.1.1) as [v|e]; simpl; eauto.
  - apply (H None).
Qed.

(** C8. What the three operations log.  The entry-struct [create] and
    [remove] write one line naming the object when the vendor reports
    success, and none when they throw.  The object-id [create] writes no line
    at all, also when it succeeds and returns the new key. *)
Theorem create_object_id_logs_nothing `{ApiT : SaiApiT} `{T : SaiObjectTraits}
    (createAttributes : CreateAttributes) (switch_id : sai_object_id_t)
    (entry : EntryStruct) (key : AdapterKey) (hw : Hw) :
  let attrs := saiAttrs createAttributes in
  let c := _create switch_id (length attrs) attrs in
  let r := (impl c hw).1 in
  let res := run impl (create createAttributes switch_id) hw in
  let ce := _create_entry entry (length attrs) attrs in
  let re := (impl ce hw).1 in
  let rese := run impl (create_entry entry createAttributes) hw in
  let cr := _remove key in
  let rr := (impl cr hw).1 in
  let resr := run impl (remove key) hw in
  res = (checked (status r) ApiType "Failed to create sai entity" (out_oid r),
         (impl c hw).2, [EvLock; EvCallBegin c; EvCallReturn r; EvUnlock])
  /\ log_lines res.2 = 0%nat
  /\ rese = (checked (status re) ApiType "Failed to create sai entity" tt,
            (impl ce hw).2,
            [EvLock; EvCallBegin ce; EvCallReturn re]
            ++ (if bool_decide (status re = SAI_STATUS_SUCCESS)
                then [EvLog (mkLogLine "created sai object" ApiType (KeyEntry entry))]
                else [])
            ++ [EvUnlock])
  /\ log_lines rese.2 = (if bool_decide (status re = SAI_STATUS_SUCCESS) then 1 else 0)%nat
  /\ resr = (checked (status rr) ApiType "Failed to remove sai object" tt,
            (impl cr hw).2,
            [EvLock; EvCallBegin cr; EvCallReturn rr]
            ++ (if bool_decide (status rr = SAI_STATUS_SUCCESS)
                then [EvLog (mkLogLine "removed sai object" ApiType key)]
                else [])
            ++ [EvUnlock])
  /\ log_lines resr.2 = (if bool_decide (status rr = SAI_STATUS_SUCCESS) then 1 else 0)%nat.
Proof.
  intros attrs c r res ce re rese cr rr resr.
  assert (Hres : res = (checked (status r) ApiType "Failed to create sai entity"
                          (out_oid r),
         (impl c hw).2, [EvLock; EvCallBegin c; EvCallReturn r; EvUnlock])).
  { subst res r. unfold create. rewrite run_lock_guard. fold attrs. fold c.
    cbn [call bind run]. destruct (impl c hw) as [r0 hw0]. cbn [fst snd].
    rewrite run_check_ret. reflexivity. }
  assert (Hlogged : forall (msg text : string) (st : sai_status_t) (k : AdapterKey)
                      (hw0 : Hw),
    run impl (saiApiCheckError st ApiType msg ;;
              Xlog (mkLogLine text ApiType k) (Ret tt)) hw0
    = (checked st ApiType msg tt, hw0,
       if bool_decide (st = SAI_STATUS_SUCCESS)
       then [EvLog (mkLogLine text ApiType k)] else [])).
  { intros msg text st k hw0. unfold saiApiCheckError, checked.
    destruct (decide (st = SAI_STATUS_SUCCESS)) as [Hs|Hs].
    - rewrite (bool_decide_eq_true_2 _ Hs). reflexivity.
    - rewrite (bool_decide_eq_false_2 _ Hs). reflexivity. }
  assert (Hrese : rese = (checked (status re) ApiType "Failed to create sai entity" tt,
            (impl ce hw).2,
            [EvLock; EvCallBegin ce; EvCallReturn re]
            ++ (if bool_decide (status re = SAI_STATUS_SUCCESS)
                then [EvLog (mkLogLine "created sai object" ApiType (KeyEntry entry))]
                else [])
            ++ [EvUnlock])).
  { subst rese re. unfold create_entry. rewrite run_lock_guard. fold attrs. fold ce.
    cbn [call bind run]. destruct (impl ce hw) as [r0 hw0]. cbn [fst snd].
    rewrite Hlogged. reflexivity. }
  assert (Hresr : resr = (checked (status rr) ApiType "Failed to remove sai object" tt,
            (impl cr hw).2,
            [EvLock; EvCallBegin cr; EvCallReturn rr]
            ++ (if bool_decide (status rr = SAI_STATUS_SUCCESS)
                then [EvLog (mkLogLine "removed sai object" ApiType key)]
                else [])
            ++ [EvUnlock])).
  { subst resr rr. unfold remove. rewrite run_lock_guard. fold cr.
    cbn [call bind run]. destruct (impl cr hw) as [r0 hw0]. cbn [fst snd].
    rewrite Hlogged. reflexivity. }
  split; [exact Hres|]. split; [rewrite Hres; reflexivity|].
  split; [exact Hrese|]. split.
  { rewrite Hrese. cbn [snd].
    destruct (bool_decide (status re = SAI_STATUS_SUCCESS)); reflexivity. }
  split; [exact Hresr|].
  rewrite Hresr. cbn [snd].
  destruct (bool_decide (status rr = SAI_STATUS_SUCCESS)); reflexivity.
Qed.

(** The object-id [create] against the fake adapter, which reports
    success: the key comes back, the trace has no log line. *)
Example create_object_id_on_fake :
  run Fake.impl (@create Fake.PortApi Fake.PortTraits [Fake.small_attr] 0) 0%nat
  = (Returned 4096, 1%nat,
     [EvLock;
      EvCallBegin (_create 0 1 [Fake.small_attr]);
      EvCallReturn (mkVendorReply SAI_STATUS_SUCCESS 4096 0 []);
      EvUnlock]).
Proof. reflexivity. Qed.

End Sequential.

(** The operations against the fake adapter. *)
Example getStats_on_fake :
  (run Fake.impl (@getStats Fake.PortApi Fake.PortTraits (KeyObjectId 1) [5; 6])
     0%nat).1
  = (Returned [105; 106], 1%nat)
  /\ (run Fake.impl (@getStats Fake.PortApi Fake.PortTraits (KeyObjectId 1) [])
        0%nat).1
     = (Returned [], 1%nat)
  /\ (run Fake.impl (@getStats_default Fake.PortApi Fake.PortTraits (KeyObjectId 1))
        0%nat).1
     = (Returned [100; 101; 102], 1%nat).
Proof. repeat split. Qed.

Example getAttribute_tuple_on_fake :
  (run Fake.impl
     (@getAttribute_tuple Fake.PortApi (KeyObjectId 1)
        [Fake.small_attr; mkSaiAttribute 8 10 (replicate 10 0)]) 0%nat).1
  = (Returned [Fake.hw_list; Fake.hw_list], 3%nat).
Proof. reflexivity. Qed.

Example getAttribute_optional_on_fake :
  (run Fake.impl (@getAttribute_optional Fake.PortApi 9 (KeyObjectId 1) None)
     0%nat).1
  = (Returned (Some Fake.hw_list), 2%nat).
Proof. reflexivity. Qed.

End SaiSpec.

(* ===================================================================== *)
(** * Properties of the manager registry                                  *)
(* ===================================================================== *)

Module ManagerTableSpec.
Import ManagerTable.

Example manager_table_at_100 :
  SaiManagerTable_ctor 100 200 []
  = (mkSaiManagerTable 200 (Some 0%nat) (Some 1%nat),
     [SaiBridgeManager 200 100; SaiPortManager 200 100]).
Proof. reflexivity. Qed.

Lemma lifetime_accessors (t : SaiManagerTable) (calls : list Accessor) :
  lifetime calls t
  = ((fun a => if is_bridge_accessor a then bridgeManager_ t else portManager_ t)
       <$> calls, t).
Proof.
  induction calls as [|a calls IH]; [reflexivity|].
  cbn [lifetime]. destruct a; cbn [access]; rewrite IH; reflexivity.
Qed.

(** C10. The constructor of the registry constructs the bridge manager
    first and the port manager second, each with the api table pointer it was
    given and with [this].  From then on, whatever accessors are called and
    in whatever order, the mutable and the const accessor of a category
    return the manager constructed for it, never a null reference, and the
    registry is left as it was. *)
Theorem manager_table_wiring (this apiTable : ptr) (h : Heap)
    (calls : list Accessor) :
  let t := (SaiManagerTable_ctor this apiTable h).1 in
  let h' := (SaiManagerTable_ctor this apiTable h).2 in
  let b := length h in
  let p := S (length h) in
  h' = h ++ [SaiBridgeManager apiTable this; SaiPortManager apiTable this]
  /\ apiTable_ t = apiTable
  /\ bridgeManager t = Some b /\ bridgeManager_const t = Some b
  /\ portManager t = Some p /\ portManager_const t = Some p
  /\ h' !! b = Some (SaiBridgeManager apiTable this)
  /\ h' !! p = Some (SaiPortManager apiTable this)
  /\ b <> p
  /\ (lifetime calls t).2 = t
  /\ (lifetime calls t).1
     = (fun a => if is_bridge_accessor a then Some b else Some p) <$> calls.
Proof.
  intros t h' b p.
  assert (Ht : t = mkSaiManagerTable apiTable (Some b) (Some p)).
  { subst t b p. unfold SaiManagerTable_ctor, make_unique. cbn.
    rewrite length_app. cbn. f_equal. f_equal. lia. }
  assert (Hh : h' = h ++ [SaiBridgeManager apiTable this; SaiPortManager apiTable this]).
  { subst h'. unfold SaiManagerTable_ctor, make_unique. cbn.
    rewrite <- app_assoc. reflexivity. }
  rewrite lifetime_accessors. rewrite Ht, Hh. cbn.
  repeat split.
  - subst b. apply list_lookup_middle. reflexivity.
  - subst p b.
    change (h ++ [SaiBridgeManager apiTable this; SaiPortManager apiTable this])
      with (h ++ [SaiBridgeManager apiTable this] ++ [SaiPortManager apiTable this]).
    rewrite app_assoc. apply list_lookup_middle. rewrite length_app. cbn. lia.
  - subst p b. lia.
Qed.

End ManagerTableSpec.

(* ===================================================================== *)
(** * Properties of the engine, many threads                              *)
(* ===================================================================== *)

Module SaiThreads.
Import Sai.

(** Unfold an operation down to its steps and check a syntactic predicate
    on every branch. *)
Ltac walk_program :=
  unfold lock_guard, call, saiApiCheckError; cbn;
  repeat first
    [ progress intros
    | split
    | reflexivity
    | exact I
    | case_decide; cbn ].

Lemma bracketed_bind {A B} (held : bool) (p : prog A) (f : A -> prog B) :
  bracketed held p -> (forall a, bracketed false (f a)) ->
  bracketed held (bind p f).
Proof.
  intros Hp Hf. revert held Hp.
  induction p as [a|e|k IH|k IH|c k IH|k IH|l k IH]; intros held Hp; cbn in *.
  - subst held. apply Hf.
  - exact Hp.
  - destruct Hp as [-> Hk]. split; [reflexivity|]. apply IH. exact Hk.
  - destruct Hp as [-> Hk]. split; [reflexivity|]. apply IH. exact Hk.
  - destruct Hp as [-> Hk]. split; [reflexivity|]. intros r. apply IH, Hk.
  - apply IH. exact Hp.
  - apply IH. exact Hp.
Qed.

Lemma bracketed_catch {A} (held : bool) (p : prog A) (h : SaiApiError -> prog A) :
  bracketed held p -> (forall e, bracketed false (h e)) ->
  bracketed held (catch p h).
Proof.
  intros Hp Hh. revert held Hp.
  induction p as [a|e|k IH|k IH|c k IH|k IH|l k IH]; intros held Hp; cbn in *.
  - exact Hp.
  - subst held. apply Hh.
  - destruct Hp as [-> Hk]. split; [reflexivity|]. apply IH. exact Hk.
  - destruct Hp as [-> Hk]. split; [reflexivity|]. apply IH. exact Hk.
  - destruct Hp as [-> Hk]. split; [reflexivity|]. intros r. apply IH, Hk.
  - apply IH. exact Hp.
  - apply IH. exact Hp.
Qed.

Section Bracketed.
Context `{ApiT : SaiApiT}.

Lemma create_bracketed `{T : SaiObjectTraits} attrs sw :
  bracketed false (create attrs sw).
Proof. unfold create. walk_program. Qed.

Lemma create_entry_bracketed `{T : SaiObjectTraits} entry attrs :
  bracketed false (create_entry entry attrs).
Proof. unfold create_entry. walk_program. Qed.

Lemma remove_bracketed key : bracketed false (remove key).
Proof. unfold remove. walk_program. Qed.

Lemma getAttribute_bracketed key attr : bracketed false (getAttribute key attr).
Proof. unfold getAttribute. walk_program. Qed.

Lemma setAttribute_bracketed key attr : bracketed false (setAttribute key attr).
Proof. unfold setAttribute. walk_program. Qed.

Lemma getStats_bracketed `{T : SaiObjectTraits} key ids :
  bracketed false (getStats key ids).
Proof. unfold getStats, getStatsImpl. walk_program. Qed.

Lemma getStats_default_bracketed `{T : SaiObjectTraits} key :
  bracketed false (getStats_default key).
Proof. unfold getStats_default, getStatsImpl. walk_program. Qed.

Lemma getAttribute_ends_at_unlock {A} key attr (f : ValueType -> A) :
  ends_at_unlock (v <- getAttribute key attr ;; Ret (f v)).
Proof. unfold getAttribute. walk_program. Qed.

End Bracketed.

Lemma engine_prog_bracketed {A} (p : prog A) :
  engine_prog p -> bracketed false p.
Proof.
  induction 1 as [A a|A e|A B p f Hp IHp Hf IHf|A p h Hp IHp Hh IHh| | | | | | | ].
  - reflexivity.
  - reflexivity.
  - apply bracketed_bind; assumption.
  - apply bracketed_catch; assumption.
  - apply create_bracketed.
  - apply create_entry_bracketed.
  - apply remove_bracketed.
  - apply getAttribute_bracketed.
  - apply setAttribute_bracketed.
  - apply getStats_bracketed.
  - apply getStats_default_bracketed.
Qed.

(** The composite reads are sequences of scalar reads, hence engine
    programs as well. *)
Lemma getAttribute_tuple_engine_prog `{ApiT : SaiApiT} key attrTuple :
  engine_prog (getAttribute_tuple key attrTuple).
Proof.
  unfold getAttribute_tuple.
  induction attrTuple as [|a rest IH]; cbn [tupleMap].
  - constructor.
  - apply engine_bind; [constructor|]. intros v.
    apply engine_bind; [exact IH|]. intros vs. constructor.
Qed.

Lemma getAttribute_optional_engine_prog `{ApiT : SaiApiT} AttrT key attrOptional :
  engine_prog (getAttribute_optional AttrT key attrOptional).
Proof.
  unfold getAttribute_optional. apply engine_bind; [constructor|].
  intros v. constructor.
Qed.

Section Mutex.
Context {A : Type}.
Implicit Types (s : system A) (ts : tstate A) (tr : list (nat * Event)).

Lemma tstep_ok held ts e ts' :
  tstate_ok held ts -> tstep ts e ts' ->
  match e with
  | EvLock => held = false /\ tstate_ok true ts'
  | EvUnlock => held = true /\ tstate_ok false ts'
  | EvCallBegin _ | EvCallReturn _ => held = true /\ tstate_ok true ts'
  | EvRealloc | EvLog _ => tstate_ok held ts'
  end.
Proof.
  intros Hok Hstep. destruct Hstep; cbn in *.
  - destruct Hok as [-> Hk]. split; [reflexivity|exact Hk].
  - destruct Hok as [-> Hk]. split; [reflexivity|exact Hk].
  - destruct Hok as [-> Hk]. split; [reflexivity|]. split; [reflexivity|exact Hk].
  - destruct Hok as [-> Hk]. split; [reflexivity|]. apply Hk.
  - exact Hok.
  - exact Hok.
Qed.

Lemma sys_ok_update s i ts' o' :
  sys_ok s ->
  tstate_ok (bool_decide (o' = Some i)) ts' ->
  (forall j, j <> i ->
     bool_decide (o' = Some j) = bool_decide (owner s = Some j)) ->
  sys_ok (mkSystem o' (<[ i := ts' ]> (threads s))).
Proof.
  intros Hok Hi Hothers j tsj Hj. cbn in *.
  destruct (decide (j = i)) as [->|Hne].
  - apply list_lookup_insert_Some in Hj as [(_ & <- & _)|(Hne & _)]; [exact Hi|].
    congruence.
  - rewrite list_lookup_insert_ne in Hj by congruence.
    rewrite (Hothers j Hne). apply Hok. exact Hj.
Qed.

Lemma step_ok s i e s' :
  sys_ok s -> step s (i, e) s' ->
  sys_ok s' /\ forall tr, serial (owner s) ((i, e) :: tr) = serial (owner s') tr.
Proof.
  intros Hok Hstep. inversion Hstep as [s0 i0 e0 ts ts' o' Hts Htstep Hmutex];
    subst; clear Hstep.
  pose proof (tstep_ok _ _ _ _ (Hok _ _ Hts) Htstep) as Hafter.
  destruct e; cbn in Hmutex, Hafter.
  - (* Lock *)
    destruct Hafter as [Hheld Hts'].
    destruct (owner s) as [o|] eqn:Ho; [discriminate|].
    injection Hmutex as <-. split.
    + apply sys_ok_update; [exact Hok| |].
      * rewrite bool_decide_eq_true_2 by reflexivity. exact Hts'.
      * intros j Hne. rewrite Ho.
        rewrite !bool_decide_eq_false_2; [reflexivity|discriminate|congruence].
    + intros tr. reflexivity.
  - (* Unlock *)
    destruct Hafter as [Hheld Hts']. apply bool_decide_eq_true_1 in Hheld.
    injection Hmutex as <-. split.
    + apply sys_ok_update; [exact Hok| |].
      * rewrite bool_decide_eq_false_2 by discriminate. exact Hts'.
      * intros j Hne. rewrite Hheld.
        rewrite !bool_decide_eq_false_2; [reflexivity|congruence|discriminate].
    + intros tr. cbn. rewrite bool_decide_eq_true_2 by exact Hheld. reflexivity.
  - (* the begin of a call *)
    destruct Hafter as [Hheld Hts']. injection Hmutex as <-. split.
    + apply sys_ok_update; [exact Hok| |reflexivity]. rewrite Hheld. exact Hts'.
    + intros tr. cbn. rewrite Hheld. reflexivity.
  - (* the return of a call *)
    destruct Hafter as [Hheld Hts']. injection Hmutex as <-. split.
    + apply sys_ok_update; [exact Hok| |reflexivity]. rewrite Hheld. exact Hts'.
    + intros tr. cbn. rewrite Hheld. reflexivity.
  - injection Hmutex as <-. split; [|reflexivity].
    apply sys_ok_update; [exact Hok|exact Hafter|reflexivity].
  - injection Hmutex as <-. split; [|reflexivity].
    apply sys_ok_update; [exact Hok|exact Hafter|reflexivity].
Qed.

Lemma exec_ok s tr s' :
  sys_ok s -> exec s tr s' -> serial (owner s) tr = true /\ sys_ok s'.
Proof.
  intros Hok Hexec. induction Hexec as [s|s [i e] s' tr s'' Hstep Hexec IH].
  - split; [reflexivity|exact Hok].
  - destruct (step_ok _ _ _ _ Hok Hstep) as [Hok' Hserial].
    destruct (IH Hok') as [Htr Hok'']. split; [|exact Hok''].
    rewrite Hserial. exact Htr.
Qed.

Lemma boot_ok (progs : list (prog A)) :
  Forall (bracketed false) progs -> sys_ok (boot progs).
Proof.
  intros Hall i ts Hi. unfold boot in *. cbn in *.
  rewrite list_lookup_fmap in Hi.
  destruct (progs !! i) as [p|] eqn:Hp; [|discriminate].
  injection Hi as <-. cbn.
  rewrite bool_decide_eq_false_2 by discriminate.
  eapply Forall_lookup_1; eassumption.
Qed.

Lemma sys_ok_callers s : sys_ok s -> callers_hold_mutex s.
Proof.
  intros Hok i. destruct (threads s !! i) as [[p|c k]|] eqn:Hi; try exact I.
  destruct (Hok _ _ Hi) as [Hheld _]. apply bool_decide_eq_true_1 in Hheld.
  exact Hheld.
Qed.

Lemma callers_one_in_flight s : callers_hold_mutex s -> one_call_in_flight s.
Proof.
  intros Hc i j Hi Hj.
  pose proof (Hc i) as Hoi. pose proof (Hc j) as Hoj.
  destruct (threads s !! i) as [[p|c k]|]; try discriminate.
  destruct (threads s !! j) as [[p'|c' k']|]; try discriminate.
  congruence.
Qed.

End Mutex.

Section LocalTraces.
Context {A : Type}.
Implicit Types (s : system A) (ts : tstate A) (tr : list (nat * Event)).

Lemma events_of_app i tr1 tr2 :
  events_of i (tr1 ++ tr2) = events_of i tr1 ++ events_of i tr2.
Proof.
  induction tr1 as [|[j e] tr1 IH]; [reflexivity|].
  cbn. case_bool_decide; cbn; rewrite IH; reflexivity.
Qed.

Lemma events_of_elem i e tr : (i, e) ∈ tr -> e ∈ events_of i tr.
Proof.
  induction tr as [|[j e'] tr IH]; intros Hin.
  - apply elem_of_nil in Hin. destruct Hin.
  - apply elem_of_cons in Hin as [[= <- <-]|Hin]; cbn.
    + rewrite bool_decide_eq_true_2 by reflexivity. apply elem_of_cons. left.
      reflexivity.
    + case_bool_decide; [apply elem_of_cons; right|]; apply IH, Hin.
Qed.

Lemma exec_local s tr s' :
  exec s tr s' ->
  forall i ts, threads s !! i = Some ts ->
    exists ts', threads s' !! i = Some ts' /\ tsteps ts (events_of i tr) ts'.
Proof.
  induction 1 as [s|s [j e] s' tr s'' Hstep Hexec IH]; intros i ts Hi.
  - exists ts. split; [exact Hi|constructor].
  - inversion Hstep as [s0 j0 e0 tsj tsj' o' Hj Htstep Hmutex]; subst.
    cbn [events_of]. case_bool_decide as Hji.
    + subst j. assert (tsj = ts) as -> by congruence.
      destruct (IH i tsj') as (ts' & Hi' & Hsteps).
      { cbn. apply list_lookup_insert_eq. eapply lookup_lt_Some. exact Hi. }
      exists ts'. split; [exact Hi'|]. econstructor; eassumption.
    + apply IH. cbn. rewrite list_lookup_insert_ne by exact Hji. exact Hi.
Qed.

Lemma tsteps_nothing_after_unlock ts l ts' :
  tsteps ts l ts' -> tstate_ends_at_unlock ts -> nothing_after_unlock l = true.
Proof.
  induction 1 as [ts|ts e ts' l ts'' Hstep Hsteps IH]; intros Hends.
  - reflexivity.
  - destruct Hstep; cbn in *.
    + apply IH. exact Hends.
    + destruct k; try contradiction;
        (inversion Hsteps as [|? ? ? ? ? Hbad]; subst; [reflexivity|inversion Hbad]).
    + apply IH. exact Hends.
    + apply IH. apply Hends.
    + apply IH. exact Hends.
    + apply IH. exact Hends.
Qed.

Lemma nothing_after_unlock_app l1 l2 :
  nothing_after_unlock (l1 ++ EvUnlock :: l2) = true -> l2 = [].
Proof.
  induction l1 as [|e l1 IH]; cbn.
  - destruct l2; [reflexivity|discriminate].
  - destruct e; try exact IH. destruct l1; discriminate.
Qed.

Lemma serial_app_inv o tr1 tr2 :
  serial o (tr1 ++ tr2) = true -> exists o1, serial o1 tr2 = true.
Proof.
  revert o. induction tr1 as [|[j e] tr1 IH]; intros o H.
  - exists o. exact H.
  - cbn in H. destruct e;
      try (apply andb_true_iff in H as [_ H]); eapply IH; exact H.
Qed.

Lemma serial_segment i mid rest :
  serial (Some i) (mid ++ rest) = true ->
  EvUnlock ∉ events_of i mid ->
  forall j e, (j, e) ∈ mid -> is_vendor e = true -> j = i.
Proof.
  induction mid as [|[j0 e0] mid IH]; intros Hserial Hno j e Hin Hvendor.
  - apply elem_of_nil in Hin. destruct Hin.
  - cbn in Hserial, Hno.
    assert (Hhead : is_vendor e0 = true -> j0 = i).
    { intros Hv. destruct e0; try discriminate;
        apply andb_true_iff in Hserial as [Ho _];
        apply bool_decide_eq_true_1 in Ho; congruence. }
    assert (Htail : serial (Some i) (mid ++ rest) = true
                    /\ EvUnlock ∉ events_of i mid).
    { destruct e0.
      - cbn in Hserial. discriminate.
      - apply andb_true_iff in Hserial as [Ho _].
        apply bool_decide_eq_true_1 in Ho. injection Ho as ->.
        rewrite bool_decide_eq_true_2 in Hno by reflexivity.
        exfalso. apply Hno. apply elem_of_cons. left. reflexivity.
      - apply andb_true_iff in Hserial as [_ Hs]. split; [exact Hs|].
        case_bool_decide; [|exact Hno].
        intros Hin'. apply Hno. apply elem_of_cons. right. exact Hin'.
      - apply andb_true_iff in Hserial as [_ Hs]. split; [exact Hs|].
        case_bool_decide; [|exact Hno].
        intros Hin'. apply Hno. apply elem_of_cons. right. exact Hin'.
      - split; [exact Hserial|].
        case_bool_decide; [|exact Hno].
        intros Hin'. apply Hno. apply elem_of_cons. right. exact Hin'.
      - split; [exact Hserial|].
        case_bool_decide; [|exact Hno].
        intros Hin'. apply Hno. apply elem_of_cons. right. exact Hin'. }
    apply elem_of_cons in Hin as [[= -> ->]|Hin].
    + apply Hhead, Hvendor.
    + destruct Htail as [Hs Hno']. eapply IH; eassumption.
Qed.

Lemma serial_uninterrupted i tr :
  serial None tr = true ->
  nothing_after_unlock (events_of i tr) = true ->
  uninterrupted i tr.
Proof.
  intros Hserial Hlocal tr1 e1 mid e2 tr2 -> He1 He2.
  apply serial_app_inv in Hserial as [o1 Hserial].
  assert (Ho1 : o1 = Some i /\ serial (Some i) (mid ++ (i, e2) :: tr2) = true).
  { cbn in Hserial. destruct e1; try discriminate;
      apply andb_true_iff in Hserial as [Ho Hs];
      apply bool_decide_eq_true_1 in Ho; subst o1; split; try reflexivity;
      exact Hs. }
  destruct Ho1 as [_ Hs].
  eapply serial_segment; [exact Hs|].
  intros Hin. apply list_elem_of_split in Hin as (m1 & m2 & Hmid).
  rewrite events_of_app in Hlocal. cbn [events_of] in Hlocal.
  rewrite bool_decide_eq_true_2 in Hlocal by reflexivity.
  rewrite events_of_app in Hlocal. cbn [events_of] in Hlocal.
  rewrite bool_decide_eq_true_2 in Hlocal by reflexivity.
  rewrite Hmid in Hlocal.
  rewrite <- (app_assoc m1), <- app_comm_cons in Hlocal.
  rewrite (app_comm_cons _ _ e1), app_assoc in Hlocal.
  apply nothing_after_unlock_app in Hlocal.
  destruct m2; discriminate.
Qed.

End LocalTraces.

(** C3. Threads that run engine operations (both [create]s, [remove],
    the scalar [getAttribute], [setAttribute], both [getStats], of any
    category, in any sequence) under the one process-wide mutex: in every interleaving, every
    begin and every return of a vendor call is a step of the thread that
    holds the mutex; a thread inside a vendor call holds the mutex, so at
    most one thread is inside a vendor call; and between the vendor events of
    a thread that runs a scalar [getAttribute] (its first attempt and its
    retry) no other thread has a vendor event. *)
Theorem vendor_calls_never_interleave {A : Type}
    (progs : list (prog A)) (tr : list (nat * Event)) (s : system A) :
  Forall engine_prog progs ->
  exec (boot progs) tr s ->
  serial None tr = true
  /\ callers_hold_mutex s
  /\ one_call_in_flight s
  /\ (forall (ApiT : SaiApiT) (i : nat) (key : AdapterKey)
             (attr : SaiAttribute) (f : ValueType -> A),
        progs !! i = Some (v <- @getAttribute ApiT key attr ;; Ret (f v)) ->
        uninterrupted i tr).
Proof.
  intros Hengine Hexec.
  assert (Hboot : sys_ok (boot progs)).
  { apply boot_ok. eapply Forall_impl; [exact Hengine|].
    intros p. apply engine_prog_bracketed. }
  destruct (exec_ok _ _ _ Hboot Hexec) as [Hserial Hok].
  pose proof (sys_ok_callers _ Hok) as Hcallers.
  repeat split.
  - exact Hserial.
  - exact Hcallers.
  - apply callers_one_in_flight. exact Hcallers.
  - intros ApiT i key attr f Hi. apply serial_uninterrupted; [exact Hserial|].
    destruct (exec_local _ _ _ Hexec i
                (Running (v <- @getAttribute ApiT key attr ;; Ret (f v))))
      as (ts' & _ & Hsteps).
    { unfold boot. cbn. rewrite list_lookup_fmap, Hi. reflexivity. }
    eapply tsteps_nothing_after_unlock; [exact Hsteps|].
    apply getAttribute_ends_at_unlock.
Qed.

Ltac thread_step i :=
  eapply (exec_more _ (i, _));
  [ eapply (step_thread _ i); [reflexivity | econstructor | reflexivity] | cbn ].

Lemma vendor_calls_never_interleave_witness :
  Forall engine_prog Fake.pool
  /\ exec (boot Fake.pool) Fake.schedule Fake.final
  /\ serial None Fake.schedule = true
  /\ callers_hold_mutex Fake.final
  /\ one_call_in_flight Fake.final
  /\ uninterrupted 0 Fake.schedule.
Proof.
  assert (Hpool : Forall engine_prog Fake.pool).
  { repeat constructor. }
  assert (Hexec : exec (boot Fake.pool) Fake.schedule Fake.final).
  { unfold Fake.schedule.
    do 7 thread_step 0%nat. do 5 thread_step 1%nat. apply exec_done. }
  destruct (vendor_calls_never_interleave Fake.pool Fake.schedule Fake.final
              Hpool Hexec) as (Hserial & Hcallers & Hone & Hgets).
  repeat split; try assumption.
  apply (Hgets Fake.PortApi 0%nat (KeyObjectId 1) Fake.small_attr (fun v => v)).
  reflexivity.
Defined.

End SaiThreads.

(* ===================================================================== *)
(** * Further properties of the engine, one thread                        *)
(* ===================================================================== *)

Module SaiMore.
Import Sai SaiSpec.

Section Counting.

Lemma count_app (f : Event -> bool) (t1 t2 : list Event) :
  length (filter f (t1 ++ t2)) = (length (filter f t1) + length (filter f t2))%nat.
Proof. rewrite filter_app, length_app. reflexivity. Qed.

Lemma vendor_calls_app t1 t2 :
  vendor_calls (t1 ++ t2) = (vendor_calls t1 + vendor_calls t2)%nat.
Proof. apply count_app. Qed.


Lemma locks_app t1 t2 : locks (t1 ++ t2) = (locks t1 + locks t2)%nat.
Proof. apply count_app. Qed.

Lemma unlocks_app t1 t2 : unlocks (t1 ++ t2) = (unlocks t1 + unlocks t2)%nat.
Proof. apply count_app. Qed.

End Counting.

Section OneThread.
Context {Hw : Type} (impl : Impl Hw).

Lemma run_check `{ApiT : SaiApiT} (st : sai_status_t) (msg : string) (hw : Hw) :
  run impl (saiApiCheckError st ApiType msg) hw = (checked st ApiType msg tt, hw, []).
Proof.
  unfold saiApiCheckError, checked.
  destruct (decide (st = SAI_STATUS_SUCCESS)); reflexivity.
Qed.

(** X1. [setAttribute] makes exactly one vendor call inside one lock
    scope and never a second one: whatever the status, buffer overflow
    included, there is no retry and no buffer growth; success returns, every
    other status throws after the mutex is released. *)
Theorem setAttribute_single_call `{ApiT : SaiApiT}
    (key : AdapterKey) (attr : SaiAttribute) (hw : Hw) :
  let c := _setAttribute key attr in
  let r := (impl c hw).1 in
  let res := run impl (setAttribute key attr) hw in
  res = (checked (status r) ApiType "Failed to set attribute" tt, (impl c hw).2,
         [EvLock; EvCallBegin c; EvCallReturn r; EvUnlock])
  /\ vendor_calls res.2 = 1%nat
  /\ reallocs res.2 = 0%nat
  /\ match res.1.1 with
     | Returned _ => status r = SAI_STATUS_SUCCESS
     | Thrown e => status r <> SAI_STATUS_SUCCESS
                   /\ e = mkSaiApiError (status r) ApiType "Failed to set attribute"
     end
  /\ checked SAI_STATUS_BUFFER_OVERFLOW ApiType "Failed to set attribute" tt
     = Thrown (mkSaiApiError SAI_STATUS_BUFFER_OVERFLOW ApiType
                 "Failed to set attribute").
Proof.
  intros c r res.
  assert (Hres : res = (checked (status r) ApiType "Failed to set attribute" tt,
                        (impl c hw).2,
                        [EvLock; EvCallBegin c; EvCallReturn r; EvUnlock])).
  { subst res r. unfold setAttribute. rewrite run_lock_guard. fold c.
    cbn [call bind run]. destruct (impl c hw) as [r0 hw0]. cbn [fst snd].
    rewrite run_check. reflexivity. }
  split; [exact Hres|]. rewrite Hres. cbn [fst snd].
  split; [reflexivity|]. split; [reflexivity|]. split.
  - unfold checked. destruct (decide (status r = SAI_STATUS_SUCCESS)).
    + assumption.
    + split; [assumption|reflexivity].
  - reflexivity.
Qed.


Lemma run_getAttribute `{ApiT : SaiApiT}
    (key : AdapterKey) (attr : SaiAttribute) (hw : Hw) :
  exists o hw' r1,
    run impl (getAttribute key attr) hw
    = (o, hw', [EvLock; EvCallBegin (_getAttribute key attr); EvCallReturn r1;
                EvUnlock])
    \/ exists c2 r2,
         run impl (getAttribute key attr) hw
         = (o, hw', [EvLock; EvCallBegin (_getAttribute key attr);
                     EvCallReturn r1; EvRealloc; EvCallBegin c2;
                     EvCallReturn r2; EvUnlock]).
Proof.
  unfold getAttribute. rewrite run_lock_guard. cbn [call bind run].
  destruct (impl (_getAttribute key attr) hw) as [r hw0].
  destruct (decide (status r = SAI_STATUS_BUFFER_OVERFLOW)) as [Hov|Hov].
  - cbn [bind run].
    destruct (impl (_getAttribute key (realloc (written r attr))) hw0)
      as [r' hw0'].
    rewrite run_check_ret. do 3 eexists. right. do 2 eexists. reflexivity.
  - rewrite run_check_ret. do 3 eexists. left. reflexivity.
Qed.

Lemma getAttribute_counts `{ApiT : SaiApiT}
    (key : AdapterKey) (attr : SaiAttribute) (hw : Hw) :
  let t := (run impl (getAttribute key attr) hw).2 in
  locks t = 1%nat /\ unlocks t = 1%nat
  /\ (1 <= vendor_calls t <= 2)%nat
  /\ (reallocs t + 1 = vendor_calls t)%nat.
Proof.
  destruct (run_getAttribute key attr hw) as (o & hw' & r1 & [H|(c2 & r2 & H)]);
    rewrite H; cbn [snd]; repeat split; try reflexivity; compute; lia.
Qed.



Lemma hw_before_S `{ApiT : SaiApiT} (key : AdapterKey) (a : SaiAttribute)
    (rest : list SaiAttribute) (hw hw1 : Hw) (v : ValueType) (t1 : list Event)
    (i : nat) :
  run impl (getAttribute key a) hw = (Returned v, hw1, t1) ->
  hw_before impl key (a :: rest) hw (S i) = hw_before impl key rest hw1 i.
Proof.
  intros Ea. unfold hw_before. cbn [take]. rewrite scalar_reads_cons, Ea.
  destruct (scalar_reads impl key (take i rest) hw1) as [[[?|?] ?] ?]; reflexivity.
Qed.

Lemma scalar_reads_first_failure `{ApiT : SaiApiT}
    (key : AdapterKey) (attrs : list SaiAttribute) (hw : Hw) (e : SaiApiError) :
  (scalar_reads impl key attrs hw).1.1 = Thrown e ->
  exists (i : nat) (a : SaiAttribute),
    attrs !! i = Some a
    /\ (exists vs, (scalar_reads impl key (take i attrs) hw).1.1 = Returned vs)
    /\ (run impl (getAttribute key a) (hw_before impl key attrs hw i)).1.1
       = Thrown e
    /\ scalar_reads impl key attrs hw
       = scalar_reads impl key (take (S i) attrs) hw.
Proof.
  revert hw. induction attrs as [|a rest IH]; intros hw.
  - intros [=].
  - rewrite scalar_reads_cons.
    destruct (run impl (getAttribute key a) hw) as [[[v|e1] hw1] t1] eqn:Ea.
    + destruct (scalar_reads impl key rest hw1) as [[[vs|e2] hw2] t2] eqn:Er;
        [intros [=]|]. intros [= ->].
      destruct (IH hw1) as (i & a' & Hi & (vs & Hvs) & Hthrow & Heq).
      { rewrite Er. reflexivity. }
      exists (S i), a'. split; [exact Hi|]. split; [|split].
      * exists (v :: vs). cbn [take]. rewrite scalar_reads_cons, Ea.
        destruct (scalar_reads impl key (take i rest) hw1) as [[[vs'|?] ?] ?];
          cbn [fst] in Hvs |- *; congruence.
      * rewrite (hw_before_S key a rest hw hw1 v t1 i Ea). exact Hthrow.
      * change (take (S (S i)) (a :: rest)) with (a :: take (S i) rest).
        rewrite scalar_reads_cons, Ea, <- Heq, Er. reflexivity.
    + intros [= ->]. exists 0%nat, a. split; [reflexivity|]. split; [|split].
      * exists []. reflexivity.
      * unfold hw_before. cbn [take scalar_reads fst snd]. rewrite Ea. reflexivity.
      * cbn [take]. rewrite scalar_reads_cons, Ea. reflexivity.
Qed.

(** X3. When [getAttribute] on a tuple throws, the error is the one the
    scalar read of some element [i] threw; all the elements before [i] were
    read, and the elements after [i] are never touched: outcome, hardware
    state and trace are those of reading the first [i + 1] elements only. *)
Theorem getAttribute_tuple_first_failure `{ApiT : SaiApiT}
    (key : AdapterKey) (attrTuple : list SaiAttribute) (hw : Hw)
    (e : SaiApiError) :
  (run impl (getAttribute_tuple key attrTuple) hw).1.1 = Thrown e ->
  exists (i : nat) (a : SaiAttribute),
    attrTuple !! i = Some a
    /\ (exists vs, (run impl (getAttribute_tuple key (take i attrTuple)) hw).1.1
                   = Returned vs)
    /\ (run impl (getAttribute key a) (hw_before impl key attrTuple hw i)).1.1
       = Thrown e
    /\ run impl (getAttribute_tuple key attrTuple) hw
       = run impl (getAttribute_tuple key (take (S i) attrTuple)) hw.
Proof.
  rewrite !getAttribute_tuple_unfold, !run_tupleMap_getAttribute. intros H.
  destruct (scalar_reads_first_failure key attrTuple hw e H)
    as (i & a & Hi & Hbefore & Hthrow & Heq).
  exists i, a. rewrite !getAttribute_tuple_unfold, !run_tupleMap_getAttribute.
  auto.
Qed.

Lemma lookup_stores_other (ws : list (nat * Z)) (buf : list Z) (i : nat) :
  i ∉ ws.*1 -> stores ws buf !! i = buf !! i.
Proof.
  unfold stores. revert buf. induction ws as [|w ws IH]; intros buf Hi.
  - reflexivity.
  - cbn [foldl]. rewrite IH.
    + apply list_lookup_insert_ne. intros Heq. apply Hi. cbn. apply elem_of_cons.
      left. symmetry. exact Heq.
    + intros Hin. apply Hi. cbn. apply elem_of_cons. right. exact Hin.
Qed.

(** X4. A counter that the vendor does not fill in reads 0: [getStats]
    hands the vendor a vector of zeros, one per counter id, so in the vector
    it returns every slot the vendor did not store into is still 0. *)
Theorem getStats_unwritten_counter_is_zero `{ApiT : SaiApiT} `{T : SaiObjectTraits}
    (key : AdapterKey) (counterIds : list sai_stat_id_t) (hw : Hw) (i : nat) :
  let c := _getStats key (length counterIds) counterIds CounterMode in
  let r := (impl c hw).1 in
  (i < length counterIds)%nat ->
  i ∉ (out_stores r).*1 ->
  match (run impl (getStats key counterIds) hw).1.1 with
  | Returned v => v !! i = Some 0
  | Thrown _ => status r <> SAI_STATUS_SUCCESS
  end.
Proof.
  intros c r Hi Hnot. unfold getStats, getStatsImpl. rewrite run_lock_guard.
  cbn [call bind run]. rewrite length_resize. fold c. subst r.
  destruct (impl c hw) as [r hw1]. cbn [fst snd] in *.
  rewrite run_check_ret. cbn [fst snd]. unfold checked.
  destruct (decide (status r = SAI_STATUS_SUCCESS)); [|assumption].
  rewrite lookup_stores_other by exact Hnot.
  rewrite resize_nil. apply lookup_replicate_2. exact Hi.
Qed.

Lemma Attrs_nested_ind (P : Attrs -> Prop) :
  (forall attr, P (AnAttribute attr)) ->
  (forall attrTuple, Forall P attrTuple -> P (ATuple attrTuple)) ->
  (forall AttrT attrOptional, P (AnOptional AttrT attrOptional)) ->
  forall a, P a.
Proof.
  intros Hattr Htuple Hopt. fix IH 1. intros [attr|attrTuple|AttrT attrOptional].
  - apply Hattr.
  - apply Htuple. revert attrTuple. fix IHl 1. intros [|a l].
    + constructor.
    + constructor; [apply IH|apply IHl].
  - apply Hopt.
Qed.

Lemma run_getAttribute_then `{ApiT : SaiApiT} {B} (key : AdapterKey)
    (attr : SaiAttribute) (f : ValueType -> B) (hw : Hw) :
  run impl (v <- getAttribute key attr ;; Ret (f v)) hw
  = (outcome_map f (run impl (getAttribute key attr) hw).1.1,
     (run impl (getAttribute key attr) hw).1.2,
     (run impl (getAttribute key attr) hw).2).
Proof.
  rewrite run_bind.
  destruct (run impl (getAttribute key attr) hw) as [[[v|e] hw1] t1];
    cbn; rewrite ?app_nil_r; reflexivity.
Qed.

Lemma tupleMap_any_counts `{ApiT : SaiApiT} (key : AdapterKey) (l : list Attrs) :
  Forall (fun a => forall hw,
    let res := run impl (getAttribute_any key a) hw in
    match res.1.1 with
    | Returned v => same_shape a v = true /\ locks res.2 = leaves a
    | Thrown _ => True
    end
    /\ locks res.2 = unlocks res.2
    /\ (locks res.2 <= leaves a)%nat
    /\ (locks res.2 <= vendor_calls res.2 <= 2 * locks res.2)%nat) l ->
  forall hw,
    let res := run impl (tupleMap (getAttribute_any key) l) hw in
    match res.1.1 with
    | Returned vs => same_shapes l vs = true /\ locks res.2 = leaves_of l
    | Thrown _ => True
    end
    /\ locks res.2 = unlocks res.2
    /\ (locks res.2 <= leaves_of l)%nat
    /\ (locks res.2 <= vendor_calls res.2 <= 2 * locks res.2)%nat.
Proof.
  induction 1 as [|a l Ha Hl IH]; intros hw.
  - cbn. repeat split; lia.
  - cbv zeta. cbn [tupleMap]. rewrite run_bind.
    specialize (Ha hw). cbv zeta in Ha.
    destruct (run impl (getAttribute_any key a) hw) as [[[v|e] hw1] t1];
      cbn [fst snd] in Ha |- *; destruct Ha as (Hs & Hlu & Hle & Hv).
    + rewrite run_bind. specialize (IH hw1). cbv zeta in IH.
      destruct (run impl (tupleMap (getAttribute_any key) l) hw1)
        as [[[vs|e] hw2] t2]; cbn [fst snd run] in IH |- *;
        destruct IH as (Is & Ilu & Ile & Iv);
        rewrite ?app_nil_r, locks_app, unlocks_app, vendor_calls_app;
        change (leaves_of (a :: l)) with (leaves a + leaves_of l)%nat.
      * destruct Hs as [Hs1 Hs2]. destruct Is as [Is1 Is2].
        change (same_shapes (a :: l) (v :: vs))
          with (same_shape a v && same_shapes l vs).
        rewrite Hs1, Is1. repeat split; lia.
      * destruct Hs as [Hs1 Hs2]. repeat split; lia.
    + change (leaves_of (a :: l)) with (leaves a + leaves_of l)%nat.
      repeat split; lia.
Qed.

(** X5. [getAttribute] on any composite (attributes, optionals and tuples,
    nested to any depth): what it returns has the shape of what was asked
    for; it takes and releases the mutex once per real attribute it reads,
    never more lock scopes than the composite has attributes, and exactly
    that many when it returns; and every lock scope holds one vendor call or
    two, so a composite of N attributes costs at most 2N vendor calls. *)
Theorem getAttribute_any_shape_and_cost `{ApiT : SaiApiT}
    (key : AdapterKey) (a : Attrs) (hw : Hw) :
  let res := run impl (getAttribute_any key a) hw in
  match res.1.1 with
  | Returned v => same_shape a v = true /\ locks res.2 = leaves a
  | Thrown _ => True
  end
  /\ locks res.2 = unlocks res.2
  /\ (locks res.2 <= leaves a)%nat
  /\ (locks res.2 <= vendor_calls res.2 <= 2 * locks res.2)%nat.
Proof.
  revert hw. induction a as [attr|attrTuple IH|AttrT attrOptional]
    using Attrs_nested_ind; intros hw.
  - cbv zeta. cbn [getAttribute_any]. rewrite run_getAttribute_then.
    pose proof (getAttribute_counts key attr hw) as Hc. cbv zeta in Hc.
    destruct (run impl (getAttribute key attr) hw) as [[[v|e] hw1] t1];
      cbn [fst snd outcome_map leaves same_shape] in Hc |- *;
      destruct Hc as (Hl & Hu & Hv & Hr); repeat split; lia.
  - cbv zeta. cbn [getAttribute_any]. rewrite run_bind.
    pose proof (tupleMap_any_counts key attrTuple IH hw) as Hc. cbv zeta in Hc.
    change (leaves (ATuple attrTuple)) with (leaves_of attrTuple).
    destruct (run impl (tupleMap (getAttribute_any key) attrTuple) hw)
      as [[[vs|e] hw1] t1]; cbn [fst snd run] in Hc |- *;
      rewrite ?app_nil_r; [|exact Hc].
    change (same_shape (ATuple attrTuple) (ValueTuple vs))
      with (same_shapes attrTuple vs). exact Hc.
  - cbv zeta. cbn [getAttribute_any]. unfold getAttribute_optional.
    rewrite run_bind, run_getAttribute_then.
    pose proof (getAttribute_counts key
                  (default (default_attr AttrT) attrOptional) hw) as Hc.
    cbv zeta in Hc.
    destruct (run impl (getAttribute key _) hw) as [[[v|e] hw1] t1];
      cbn [fst snd outcome_map leaves same_shape run] in Hc |- *;
      rewrite ?app_nil_r;
      destruct Hc as (Hl & Hu & Hv & Hr); repeat split; lia.
Qed.

End OneThread.

(** A tuple of three whose first element is refused: one lock scope, one
    vendor call. *)
Example refused_first_element_costs_one_call :
  let res := run Fake.refusing_impl
               (@getAttribute_tuple Fake.PortApi (KeyObjectId 1)
                  [Fake.refused_attr; Fake.small_attr; Fake.small_attr]) 0%nat in
  res.1.1 = Thrown Fake.refusal /\ locks res.2 = 1%nat /\ vendor_calls res.2 = 1%nat.
Proof. repeat split. Qed.

Lemma getStats_unwritten_counter_is_zero_witness :
  (1 < length [5; 6; 7])%nat
  /\ (1%nat ∉ (out_stores
                (Fake.first_counter_impl
                   (_getStats (KeyObjectId 1) 3 [5; 6; 7]
                      (@CounterMode Fake.PortTraits)) 0%nat).1).*1)
  /\ match (run Fake.first_counter_impl
              (@getStats Fake.PortApi Fake.PortTraits (KeyObjectId 1) [5; 6; 7])
              0%nat).1.1 with
     | Returned v => v !! 1%nat = Some 0
     | Thrown _ =>
         status (Fake.first_counter_impl
                   (_getStats (KeyObjectId 1) 3 [5; 6; 7]
                      (@CounterMode Fake.PortTraits)) 0%nat).1
         <> SAI_STATUS_SUCCESS
     end.
Proof.
  assert (H1 : (1 < length [5; 6; 7])%nat) by (cbn; lia).
  assert (H2 : 1%nat ∉ (out_stores
               (Fake.first_counter_impl
                  (_getStats (KeyObjectId 1) 3 [5; 6; 7]
                     (@CounterMode Fake.PortTraits)) 0%nat).1).*1).
  { cbn. intros Hin. apply elem_of_cons in Hin as [Hin|Hin]; [discriminate|].
    apply elem_of_nil in Hin. exact Hin. }
  split; [exact H1|]. split; [exact H2|].
  exact (getStats_unwritten_counter_is_zero Fake.first_counter_impl
           (ApiT := Fake.PortApi) (T := Fake.PortTraits)
           (KeyObjectId 1) [5; 6; 7] 0%nat 1%nat H1 H2).
Defined.

Lemma getAttribute_tuple_first_failure_witness :
  (run Fake.refusing_impl
     (@getAttribute_tuple Fake.PortApi (KeyObjectId 1) Fake.refused_tuple)
     0%nat).1.1 = Thrown Fake.refusal
  /\ exists (i : nat) (a : SaiAttribute),
       Fake.refused_tuple !! i = Some a
       /\ (exists vs,
             (run Fake.refusing_impl
                (@getAttribute_tuple Fake.PortApi (KeyObjectId 1)
                   (take i Fake.refused_tuple))
                0%nat).1.1 = Returned vs)
       /\ (run Fake.refusing_impl (@getAttribute Fake.PortApi (KeyObjectId 1) a)
             (@hw_before nat Fake.PortApi Fake.refusing_impl (KeyObjectId 1)
                Fake.refused_tuple 0%nat i)).1.1 = Thrown Fake.refusal
       /\ run Fake.refusing_impl
            (@getAttribute_tuple Fake.PortApi (KeyObjectId 1) Fake.refused_tuple)
            0%nat
          = run Fake.refusing_impl
              (@getAttribute_tuple Fake.PortApi (KeyObjectId 1)
                 (take (S i) Fake.refused_tuple))
              0%nat.
Proof.
  split; [reflexivity|].
  apply (getAttribute_tuple_first_failure Fake.refusing_impl (ApiT := Fake.PortApi)).
  reflexivity.
Defined.

End SaiMore.

(* ===================================================================== *)
(** * Further properties of the engine, many threads                      *)
(* ===================================================================== *)

Module SaiThreadsMore.
Import Sai SaiThreads.

Section Progress.
Context {A : Type}.
Implicit Types (s : system A) (ts : tstate A) (tr : list (nat * Event)).

Lemma step_owner_exists s l s' : owner_exists s -> step s l s' -> owner_exists s'.
Proof.
  intros Hex Hstep. destruct Hstep as [s i e ts ts' o' Hts Htstep Hmutex].
  intros j Hj. cbn in *. apply lookup_lt_is_Some. rewrite length_insert.
  apply lookup_lt_is_Some.
  destruct e; cbn in Hmutex;
    try (injection Hmutex as <-; apply Hex; exact Hj).
  - destruct (owner s); [discriminate|]. injection Hmutex as <-.
    injection Hj as <-. eauto.
  - injection Hmutex as <-. discriminate.
Qed.

Lemma exec_owner_exists s tr s' : owner_exists s -> exec s tr s' -> owner_exists s'.
Proof.
  intros Hex Hexec. induction Hexec as [s|s l s' tr s'' Hstep Hexec IH].
  - exact Hex.
  - apply IH. eapply step_owner_exists; eassumption.
Qed.

Lemma holder_can_step s i ts :
  owner s = Some i -> threads s !! i = Some ts -> tstate_ok true ts ->
  exists e s', step s (i, e) s'.
Proof.
  intros Ho Hi Hok. destruct ts as [p|c k].
  - destruct p as [a|e|k|k|c k|k|l k]; cbn in Hok; try discriminate.
    + destruct Hok as [Hbad _]. discriminate.
    + eexists _, _. eapply step_thread; [exact Hi|apply tstep_unlock|reflexivity].
    + eexists _, _. eapply step_thread; [exact Hi|apply tstep_begin|reflexivity].
    + eexists _, _. eapply step_thread; [exact Hi|apply tstep_realloc|reflexivity].
    + eexists _, _. eapply step_thread; [exact Hi|apply tstep_log|reflexivity].
  - eexists _, _.
    eapply step_thread; [exact Hi|apply (tstep_return c k ok_reply)|reflexivity].
Qed.

Lemma waiter_can_step s i ts :
  owner s = None -> threads s !! i = Some ts -> tstate_ok false ts ->
  terminated ts = false ->
  exists e s', step s (i, e) s'.
Proof.
  intros Ho Hi Hok Hrun. destruct ts as [p|c k].
  - destruct p as [a|e|k|k|c k|k|l k]; cbn in Hok, Hrun; try discriminate.
    + eexists _, _. eapply step_thread; [exact Hi|apply tstep_lock|].
      cbn. rewrite Ho. reflexivity.
    + destruct Hok as [Hbad _]. discriminate.
    + destruct Hok as [Hbad _]. discriminate.
    + eexists _, _. eapply step_thread; [exact Hi|apply tstep_realloc|reflexivity].
    + eexists _, _. eapply step_thread; [exact Hi|apply tstep_log|reflexivity].
  - destruct Hok as [Hbad _]. discriminate.
Qed.

(** X6. Threads that run engine operations never block each other for
    good.  In every state they can reach, either all threads have returned
    or thrown and the mutex is free, or some thread can take a step: the
    thread that holds the mutex always can (no operation takes the mutex a
    second time while holding it), and when the mutex is free every thread
    that is not done can.  A thread that has returned or thrown does not
    hold the mutex. *)
Theorem engine_threads_never_stuck (progs : list (prog A))
    (tr : list (nat * Event)) (s : system A) :
  Forall engine_prog progs ->
  exec (boot progs) tr s ->
  ((owner s = None /\ Forall (fun ts => terminated ts = true) (threads s))
   \/ exists i e s', step s (i, e) s')
  /\ (forall i, owner s = Some i -> exists e s', step s (i, e) s')
  /\ (forall i ts, owner s = None -> threads s !! i = Some ts ->
                   terminated ts = false -> exists e s', step s (i, e) s')
  /\ (forall i ts, threads s !! i = Some ts -> terminated ts = true ->
                   owner s <> Some i).
Proof.
  intros Hengine Hexec.
  assert (Hboot : sys_ok (boot progs)).
  { apply boot_ok. eapply Forall_impl; [exact Hengine|].
    intros p. apply engine_prog_bracketed. }
  destruct (exec_ok _ _ _ Hboot Hexec) as [_ Hok].
  assert (Hex : owner_exists s).
  { eapply exec_owner_exists; [|exact Hexec]. intros i Hi. discriminate. }
  assert (Hholder : forall i, owner s = Some i -> exists e s', step s (i, e) s').
  { intros i Ho. destruct (Hex i Ho) as [ts Hi].
    apply (holder_can_step s i ts Ho Hi).
    pose proof (Hok i ts Hi) as H. rewrite bool_decide_eq_true_2 in H by exact Ho.
    exact H. }
  assert (Hwaiter : forall i ts, owner s = None -> threads s !! i = Some ts ->
                     terminated ts = false -> exists e s', step s (i, e) s').
  { intros i ts Ho Hi Hrun. apply (waiter_can_step s i ts Ho Hi); [|exact Hrun].
    pose proof (Hok i ts Hi) as H.
    rewrite bool_decide_eq_false_2 in H by (rewrite Ho; discriminate). exact H. }
  split; [|split; [exact Hholder|split; [exact Hwaiter|]]].
  - destruct (owner s) as [i|] eqn:Ho.
    + right. exists i. apply Hholder. reflexivity.
    + destruct (Forall_Exists_dec (fun ts : tstate A => terminated ts = true)
                  (fun ts => terminated ts = false)
                  (fun ts => match terminated ts as b
                               return {b = true} + {b = false} with
                             | true => left eq_refl
                             | false => right eq_refl
                             end) (threads s)) as [Hall|Hsome].
      * left. split; [reflexivity|exact Hall].
      * right. apply Exists_exists in Hsome as (ts & Hin & Hrun).
        apply list_elem_of_lookup_1 in Hin as [i Hi].
        exists i. apply (Hwaiter i ts eq_refl Hi Hrun).
  - intros i ts Hi Hdone Ho.
    pose proof (Hok i ts Hi) as H. rewrite bool_decide_eq_true_2 in H by exact Ho.
    destruct ts as [p|c k]; [|discriminate].
    destruct p; cbn in H, Hdone; discriminate.
Qed.

End Progress.

Lemma fake_schedule_exec : exec (boot Fake.pool) Fake.schedule Fake.final.
Proof.
  unfold Fake.schedule.
  do 7 thread_step 0%nat. do 5 thread_step 1%nat. apply exec_done.
Qed.

Lemma engine_threads_never_stuck_witness :
  Forall engine_prog Fake.pool
  /\ exec (boot Fake.pool) Fake.schedule Fake.final
  /\ ((owner Fake.final = None
       /\ Forall (fun ts => terminated ts = true) (threads Fake.final))
      \/ exists i e s', step Fake.final (i, e) s').
Proof.
  assert (Hpool : Forall engine_prog Fake.pool) by (repeat constructor).
  split; [exact Hpool|]. split; [exact fake_schedule_exec|].
  exact (proj1 (engine_threads_never_stuck Fake.pool Fake.schedule Fake.final
                  Hpool fake_schedule_exec)).
Defined.

(** X7. [getAttribute] on a tuple is not one critical section: between
    the reads of two elements the mutex is free, and there is an interleaving
    in which the vendor call of another thread (here a [setAttribute]) runs
    between them.  The trace is serial all the same. *)
Theorem tuple_read_is_not_atomic (ApiT ApiT' : SaiApiT)
    (key key' : AdapterKey) (a1 a2 attr' : SaiAttribute) :
  let reader := @getAttribute_tuple ApiT key [a1; a2] in
  let writer := (@setAttribute ApiT' key' attr' ;; Ret []) in
  Forall engine_prog [reader; writer]
  /\ exists tr s,
       exec (boot [reader; writer]) tr s
       /\ serial None tr = true
       /\ ~ uninterrupted 0 tr.
Proof.
  intros reader writer. split.
  { constructor; [apply getAttribute_tuple_engine_prog|].
    constructor; [|constructor].
    apply engine_bind; [constructor|]. intros []. constructor. }
  exists [ (0%nat, EvLock);
           (0%nat, EvCallBegin (_getAttribute key a1));
           (0%nat, EvCallReturn ok_reply);
           (0%nat, EvUnlock);
           (1%nat, EvLock);
           (1%nat, EvCallBegin (_setAttribute key' attr'));
           (1%nat, EvCallReturn ok_reply);
           (1%nat, EvUnlock);
           (0%nat, EvLock);
           (0%nat, EvCallBegin (_getAttribute key a2));
           (0%nat, EvCallReturn ok_reply);
           (0%nat, EvUnlock) ].
  eexists. split; [|split].
  - do 4 thread_step 0%nat. do 4 thread_step 1%nat. do 4 thread_step 0%nat.
    apply exec_done.
  - reflexivity.
  - intros H.
    specialize (H [(0%nat, EvLock)] (EvCallBegin (_getAttribute key a1))
                  [ (0%nat, EvCallReturn ok_reply);
                    (0%nat, EvUnlock);
                    (1%nat, EvLock);
                    (1%nat, EvCallBegin (_setAttribute key' attr'));
                    (1%nat, EvCallReturn ok_reply);
                    (1%nat, EvUnlock);
                    (0%nat, EvLock) ]
                  (EvCallBegin (_getAttribute key a2))
                  [ (0%nat, EvCallReturn ok_reply); (0%nat, EvUnlock) ]
                  eq_refl eq_refl eq_refl
                  1%nat (EvCallBegin (_setAttribute key' attr'))).
    assert (Hbad : 1%nat = 0%nat); [|discriminate].
    apply H; [|reflexivity].
    do 3 (apply elem_of_cons; right). apply elem_of_cons. left. reflexivity.
Qed.

Lemma tupleMap_any_engine_prog `{ApiT : SaiApiT} (key : AdapterKey)
    (l : list Attrs) :
  Forall (fun a => engine_prog (getAttribute_any key a)) l ->
  engine_prog (tupleMap (getAttribute_any key) l).
Proof.
  induction 1 as [|a l Ha Hl IH]; cbn [tupleMap].
  - constructor.
  - apply engine_bind; [exact Ha|]. intros v.
    apply engine_bind; [exact IH|]. intros vs. constructor.
Qed.

Lemma getAttribute_any_engine_prog `{ApiT : SaiApiT} (key : AdapterKey)
    (a : Attrs) :
  engine_prog (getAttribute_any key a).
Proof.
  induction a as [attr|attrTuple IH|AttrT attrOptional]
    using SaiMore.Attrs_nested_ind; cbn [getAttribute_any].
  - apply engine_bind; [constructor|]. intros v. constructor.
  - apply engine_bind; [apply tupleMap_any_engine_prog; exact IH|].
    intros vs. constructor.
  - apply engine_bind; [apply getAttribute_optional_engine_prog|].
    intros v. constructor.
Qed.

(** X8. Threads that read composites with [getAttribute] (tuples and
    optionals, nested to any depth, of any category): in every interleaving
    every vendor call is made by the thread that holds the mutex, and at most
    one thread is inside a vendor call. *)
Theorem composite_reads_serialized
    (reads : list (SaiApiT * AdapterKey * Attrs))
    (tr : list (nat * Event)) (s : system Values) :
  exec (boot ((fun r => @getAttribute_any r.1.1 r.1.2 r.2) <$> reads)) tr s ->
  serial None tr = true /\ callers_hold_mutex s /\ one_call_in_flight s.
Proof.
  intros Hexec.
  assert (Hboot : sys_ok (boot ((fun r => @getAttribute_any r.1.1 r.1.2 r.2)
                                  <$> reads))).
  { apply boot_ok. apply Forall_fmap. apply Forall_forall. intros r _. cbn.
    apply engine_prog_bracketed. apply getAttribute_any_engine_prog. }
  destruct (exec_ok _ _ _ Hboot Hexec) as [Hserial Hok].
  pose proof (sys_ok_callers _ Hok) as Hcallers.
  split; [exact Hserial|]. split; [exact Hcallers|].
  apply callers_one_in_flight. exact Hcallers.
Qed.

Lemma composite_reads_serialized_witness :
  exec (boot ((fun r => @getAttribute_any r.1.1 r.1.2 r.2) <$> Fake.composite_reads))
    Fake.composite_schedule Fake.composite_final
  /\ serial None Fake.composite_schedule = true
  /\ callers_hold_mutex Fake.composite_final
  /\ one_call_in_flight Fake.composite_final.
Proof.
  assert (Hexec : exec (boot ((fun r => @getAttribute_any r.1.1 r.1.2 r.2)
                                <$> Fake.composite_reads))
                    Fake.composite_schedule Fake.composite_final).
  { unfold Fake.composite_schedule, Fake.schedule. cbn [take].
    do 7 thread_step 0%nat. apply exec_done. }
  split; [exact Hexec|].
  exact (composite_reads_serialized Fake.composite_reads
           Fake.composite_schedule Fake.composite_final Hexec).
Defined.

End SaiThreadsMore.

(* ===================================================================== *)
(** * Further properties of the capability profile and of the registry    *)
(* ===================================================================== *)

Module HwAsicMore.
Import Cfg HwAsic.

(** X9. On Trident2 the two stream-type queries agree on what exists:
    [getDefaultNumPortQueues] returns a count (0) exactly for the stream
    types that some port kind lists in [getQueueStreamTypes], and throws
    exactly for the stream types that no port kind lists. *)
Theorem trident2_default_exactly_for_listed (streamType : StreamType) :
  ((exists cpu : bool, streamType ∈ @getQueueStreamTypes Trident2Asic cpu)
   <-> @getDefaultNumPortQueues Trident2Asic streamType = Returns 0)
  /\ ((forall cpu : bool, streamType ∉ @getQueueStreamTypes Trident2Asic cpu)
      <-> is_throw (@getDefaultNumPortQueues Trident2Asic streamType) = true).
Proof.
  cbn. unfold Trident2.getQueueStreamTypes. split; split.
  - intros [[] Hin]; apply elem_of_singleton in Hin; subst; reflexivity.
  - destruct streamType; cbn; try discriminate; intros _.
    + exists false. apply elem_of_singleton. reflexivity.
    + exists true. apply elem_of_singleton. reflexivity.
  - intros Hno. destruct streamType; cbn; try reflexivity; exfalso.
    + apply (Hno false). apply elem_of_singleton. reflexivity.
    + apply (Hno true). apply elem_of_singleton. reflexivity.
  - destruct streamType; cbn; try discriminate;
      intros _ [] Hin; apply elem_of_singleton in Hin; discriminate.
Qed.

End HwAsicMore.

Module ManagerTableMore.
Import ManagerTable.

Lemma lookup_after (h : Heap) (new : list Manager) (k : nat) :
  (h ++ new) !! (length h + k)%nat = new !! k.
Proof. rewrite lookup_app_r by lia. f_equal. lia. Qed.

(** X10. Constructing a registry leaves the managers that exist already
    as they are, and a second registry gets managers of its own: after two
    constructions the four managers are four different objects, each still
    holding the api table and the back-reference of the registry that
    constructed it. *)
Theorem two_registries_share_no_manager (this1 apiTable1 this2 apiTable2 : ptr)
    (h : Heap) :
  let t1 := (SaiManagerTable_ctor this1 apiTable1 h).1 in
  let h1 := (SaiManagerTable_ctor this1 apiTable1 h).2 in
  let t2 := (SaiManagerTable_ctor this2 apiTable2 h1).1 in
  let h2 := (SaiManagerTable_ctor this2 apiTable2 h1).2 in
  take (length h) h2 = h
  /\ exists b1 p1 b2 p2 : nat,
       bridgeManager t1 = Some b1 /\ portManager t1 = Some p1
       /\ bridgeManager t2 = Some b2 /\ portManager t2 = Some p2
       /\ NoDup [b1; p1; b2; p2]
       /\ h2 !! b1 = Some (SaiBridgeManager apiTable1 this1)
       /\ h2 !! p1 = Some (SaiPortManager apiTable1 this1)
       /\ h2 !! b2 = Some (SaiBridgeManager apiTable2 this2)
       /\ h2 !! p2 = Some (SaiPortManager apiTable2 this2).
Proof.
  intros t1 h1 t2 h2.
  assert (Hh2 : h2 = h ++ [SaiBridgeManager apiTable1 this1;
                           SaiPortManager apiTable1 this1;
                           SaiBridgeManager apiTable2 this2;
                           SaiPortManager apiTable2 this2]).
  { subst h2 h1. unfold SaiManagerTable_ctor, make_unique. cbn.
    rewrite <- !app_assoc. reflexivity. }
  split.
  - rewrite Hh2. rewrite take_app_length. reflexivity.
  - exists (length h + 0)%nat, (length h + 1)%nat,
           (length h + 2)%nat, (length h + 3)%nat.
    rewrite Hh2, !lookup_after.
    subst t1 t2 h1. unfold SaiManagerTable_ctor, make_unique. cbn.
    rewrite !length_app. cbn.
    repeat split; try (f_equal; lia).
    repeat constructor; rewrite ?elem_of_cons, ?elem_of_nil; lia.
Qed.

End ManagerTableMore.
